(** * gpmf.orientation: block extraction and orientation decoding

    A shallow embedding of [gpmf/orientation.py] (pygpmf): the generator
    [extract_blocks] and the two decoders [parse_iori_block] and
    [parse_cori_block], with the properties the specification states
    about them.

    The module uses three collaborators that are not part of it:
    - [parse.filter_klv], which isolates the [STRM] containers of the
      stream: its result is the input of the model of [extract_blocks];
    - numpy, for the payloads and for [value * 1.0 / value]: modelled in
      [Numpy] below on binary64 floats (the kernel's [PrimFloat]);
    - scipy's [R.from_quat(q).as_euler('zyx', degrees=True)]: its
      trigonometry is not modelled, it is a Variable of the decoder's
      Section. *)

From Stdlib Require Import ZArith Floats.
From stdpp Require Import gmap strings list.

Local Open Scope Z_scope.

(** ** Exceptions and the error monad *)

(** The Python exceptions the module can raise. [KeyError k] is what a
    dictionary raises on a missing key [k]: the specification's
    [MissingFieldError]. *)
Inductive exn : Type :=
| KeyError (k : string)
| TypeError
| ValueError.

Inductive result (A : Type) : Type :=
| Ok (a : A)
| Raise (e : exn).
Arguments Ok {A} a.
Arguments Raise {A} e.

#[global] Instance result_ret : MRet result := @Ok.
#[global] Instance result_bind : MBind result :=
  fun A B f r => match r with Ok a => f a | Raise e => Raise e end.
#[global] Instance result_fmap : FMap result :=
  fun A B f r => match r with Ok a => Ok (f a) | Raise e => Raise e end.

Definition is_ok {A} (r : result A) : bool :=
  match r with Ok _ => true | Raise _ => false end.

(** ** numpy values *)

Module Numpy.

(** One element of a numeric payload: an integer of one of the integer
    dtypes of GPMF (8 to 64 bits, signed or unsigned) or a float64. *)
Inductive number : Type :=
| NInt (z : Z)
| NFloat (f : float).

(** Integer to float64, rounding to nearest even: [of_uint63] does it up
    to 63 bits; a 64-bit magnitude is halved first, its lowest bit kept
    as a sticky bit. *)
Definition float_of_Z (z : Z) : float :=
  let m := Z.abs z in
  let f :=
    if m <? 2 ^ 63 then of_uint63 (Uint63.of_Z m)
    else (of_uint63 (Uint63.of_Z (Z.lor (Z.shiftr m 1) (Z.land m 1))) * 2)%float in
  if z <? 0 then (- f)%float else f.

Definition to_float (x : number) : float :=
  match x with
  | NInt z => float_of_Z z
  | NFloat f => f
  end.

(** A numpy scalar, a 1-D array or a 2-D array given by its rows: the
    shapes the KLV parser produces (a single value, a vector, [repeat]
    rows of a fixed size). *)
Inductive ndarray (A : Type) : Type :=
| Arr0 (x : A)
| Arr1 (v : list A)
| Arr2 (m : list (list A)).
Arguments Arr0 {A} x.
Arguments Arr1 {A} v.
Arguments Arr2 {A} m.

(** [len(a)] *)
Definition len {A} (a : ndarray A) : result nat :=
  match a with
  | Arr0 _ => Raise TypeError
  | Arr1 v => Ok (length v)
  | Arr2 m => Ok (length m)
  end.

(** A function applied to every element; the shape is kept. *)
Definition amap {A B} (f : A -> B) (a : ndarray A) : ndarray B :=
  match a with
  | Arr0 x => Arr0 (f x)
  | Arr1 v => Arr1 (map f v)
  | Arr2 m => Arr2 (map (map f) m)
  end.

(** A predicate on every element. *)
Definition all_elements {A} (P : A -> Prop) (a : ndarray A) : Prop :=
  match a with
  | Arr0 x => P x
  | Arr1 v => Forall P v
  | Arr2 m => Forall (Forall P) m
  end.

(** [a * 1.0]: every element becomes a float64. *)
Definition mul_one (a : ndarray number) : ndarray float :=
  amap (fun x => (to_float x * 1)%float) a.

(** Broadcasting along one axis: equal lengths pair up, a length of one
    is stretched, anything else is numpy's
    "operands could not be broadcast together" ([ValueError]). *)
Fixpoint zip_results {A B C} (f : A -> B -> result C)
    (u : list A) (v : list B) : result (list C) :=
  match u, v with
  | [], [] => Ok []
  | a :: u', b :: v' =>
      c ← f a b; cs ← zip_results f u' v'; Ok (c :: cs)
  | _, _ => Raise ValueError
  end.

Fixpoint map_results {A C} (f : A -> result C) (u : list A) : result (list C) :=
  match u with
  | [] => Ok []
  | a :: u' => c ← f a; cs ← map_results f u'; Ok (c :: cs)
  end.

Definition broadcast {A B C} (f : A -> B -> result C)
    (u : list A) (v : list B) : result (list C) :=
  if decide (length u = length v) then zip_results f u v
  else match u, v with
       | [a], _ => map_results (f a) v
       | _, [b] => map_results (fun a => f a b) u
       | _, _ => Raise ValueError
       end.

(** One element divided by one element of the divisor, in float64.
    Division by zero is not an error in numpy: it gives an infinity or
    a nan (and a warning). *)
Definition div1 (a : float) (b : number) : float := (a / to_float b)%float.

(** [a / b] for a float64 array [a]: numpy's [true_divide] with
    broadcasting. *)
Definition true_divide (a : ndarray float) (b : ndarray number)
    : result (ndarray float) :=
  let d := fun x y => Ok (div1 x y) in
  match a, b with
  | Arr0 x, Arr0 y => Ok (Arr0 (div1 x y))
  | Arr0 x, Arr1 v => Ok (Arr1 (map (div1 x) v))
  | Arr0 x, Arr2 n => Ok (Arr2 (map (map (div1 x)) n))
  | Arr1 u, Arr0 y => Ok (Arr1 (map (fun x => div1 x y) u))
  | Arr1 u, Arr1 v => Arr1 <$> broadcast d u v
  | Arr1 u, Arr2 n => Arr2 <$> map_results (broadcast d u) n
  | Arr2 m, Arr0 y => Ok (Arr2 (map (map (fun x => div1 x y)) m))
  | Arr2 m, Arr1 v => Arr2 <$> map_results (fun r => broadcast d r v) m
  | Arr2 m, Arr2 n => Arr2 <$> broadcast (broadcast d) m n
  end.

End Numpy.

Import Numpy.

(** ** KLV records *)

(** The payload of a record: numeric, or text (type [c], as in the
    [STNM] and [SIUN] records of a block). *)
Inductive payload : Type :=
| PNum (a : ndarray number)
| PText (s : string).

(** [parse.KLVItem], with the two fields this module reads. *)
Record KLVItem : Type := mkKLVItem { key : string; value : payload }.

(** An item yielded by [parse.filter_klv(stream, 'STRM')]: a nested
    record, whose [value] is the sequence of the records it holds, in
    stream order. *)
Module Container.
Record t : Type := mk { value : list KLVItem }.
End Container.

(** The two result types, [namedtuple]s with the same four fields. *)
Module IoriData.
Record t : Type := mk { cts : payload; z : list float; y : list float; x : list float }.
End IoriData.

Module CoriData.
Record t : Type := mk { cts : payload; z : list float; y : list float; x : list float }.
End CoriData.

(** [len(p)] on a payload, as a caller comparing [len(cts)] with
    [len(z)] computes it. *)
Definition payload_len (p : payload) : result nat :=
  match p with
  | PNum a => len a
  | PText s => Ok (String.length s)
  end.

(** ** extract_blocks *)

Section Segmenter.

(** [parse.filter_klv] is not part of the module: the raw stream and the
    function that isolates its containers are taken as given. *)
Variable stream : Type.
Variable filter_klv : stream -> string -> list Container.t.

(** One turn of the inner loop: [content.append(elt)], then the test of
    [elt.key] that sets [is_cc]. *)
Definition scan_step (fourcc : string) (st : list KLVItem * bool) (elt : KLVItem)
    : list KLVItem * bool :=
  let content := st.1 ++ [elt] in
  let is_cc := if decide (key elt = fourcc) then true else st.2 in
  (content, is_cc).

(** The body of the outer loop for one container [s]: the blocks it
    yields (none or one). *)
Definition scan_container (fourcc : string) (s : Container.t) : list (list KLVItem) :=
  let st := foldl (scan_step fourcc) ([], false) (Container.value s) in
  if st.2 then [st.1] else [].

(** The generator, as the list of the blocks it yields in order. *)
Definition extract_blocks (strm : stream) (fourcc : string) : list (list KLVItem) :=
  foldl (fun yielded s => yielded ++ scan_container fourcc s) []
        (filter_klv strm "STRM").

End Segmenter.

(** Whether a record with the key occurs among the records. *)
Definition has_key (fourcc : string) (elts : list KLVItem) : bool :=
  existsb (fun elt => bool_decide (key elt = fourcc)) elts.

(** How many records carry the key. *)
Definition count_key (fourcc : string) (elts : list KLVItem) : nat :=
  length (filter (fun elt => key elt = fourcc) elts).

(** ** The decoders *)

(** [{s.key: s for s in block}]: a later record replaces an earlier one
    with the same key. *)
Definition block_dict (block : list KLVItem) : gmap string KLVItem :=
  foldl (fun d s => <[key s := s]> d) ∅ block.

(** [d[k]] *)
Definition getitem (d : gmap string KLVItem) (k : string) : result KLVItem :=
  match d !! k with
  | Some s => Ok s
  | None => Raise (KeyError k)
  end.

(** [p * 1.0] *)
Definition times_one (p : payload) : result (ndarray float) :=
  match p with
  | PNum a => Ok (mul_one a)
  | PText _ => Raise TypeError
  end.

(** [a / p] for a float64 array [a] *)
Definition divided_by (a : ndarray float) (p : payload) : result (ndarray float) :=
  match p with
  | PNum b => true_divide a b
  | PText _ => Raise TypeError
  end.

Definition euler : Type := float * float * float.

(** [z, y, x = rotation.T] for [rotation = np.array(angles)]: an [N x 3]
    array is unpacked into its three columns; with no row at all the
    array has shape [(0,)] and the unpacking raises. *)
Definition unpack_T (angles : list euler)
    : result (list float * list float * list float) :=
  match angles with
  | [] => Raise ValueError
  | _ => Ok (map (fun e => e.1.1) angles,
             map (fun e => e.1.2) angles,
             map (fun e => e.2) angles)
  end.

(** The local [data] of the decoders for the quaternion key [channel]:
    the quaternion payload times [1.0], over the payload of [SCAL]. *)
Definition quaternion_data (channel : string) (block : list KLVItem)
    : result (ndarray float) :=
  let block_dict := block_dict block in
  quat ← getitem block_dict channel;
  product ← times_one (value quat);
  scal ← getitem block_dict "SCAL";
  divided_by product (value scal).

Section Decoder.

(** scipy's [R.from_quat([qx, qy, qz, qw]).as_euler('zyx', degrees=True)]
    on one quaternion, scalar last: the three angles, or [None] where
    scipy raises [ValueError] (a quaternion of norm zero). *)
Variable as_euler_zyx : float -> float -> float -> float -> option euler.

(** The conversion of one element [q] of [data]; [from_quat] wants
    exactly four components. *)
Definition quat_to_euler (q : list float) : result euler :=
  match q with
  | [qx; qy; qz; qw] =>
      match as_euler_zyx qx qy qz qw with
      | Some e => Ok e
      | None => Raise ValueError
      end
  | _ => Raise ValueError
  end.

(** [[R.from_quat(q).as_euler(...) for q in data]]: a numpy scalar is
    not iterable; the elements of a 1-D array are scalars, which
    [from_quat] rejects; the elements of a 2-D array are its rows. *)
Definition euler_angles (data : ndarray float) : result (list euler) :=
  match data with
  | Arr0 _ => Raise TypeError
  | Arr1 v => map_results (fun _ => Raise ValueError) v
  | Arr2 m => map_results quat_to_euler m
  end.

Definition parse_iori_block (block : list KLVItem) : result IoriData.t :=
  let block_dict := block_dict block in
  iori ← getitem block_dict "IORI";
  product ← times_one (value iori);
  scal ← getitem block_dict "SCAL";
  data ← divided_by product (value scal);
  rotation ← euler_angles data;
  zyx ← unpack_T rotation;
  stmp ← getitem block_dict "STMP";
  Ok {| IoriData.cts := value stmp;
        IoriData.z := zyx.1.1;
        IoriData.y := zyx.1.2;
        IoriData.x := zyx.2 |}.

Definition parse_cori_block (block : list KLVItem) : result CoriData.t :=
  let block_dict := block_dict block in
  cori ← getitem block_dict "CORI";
  product ← times_one (value cori);
  scal ← getitem block_dict "SCAL";
  data ← divided_by product (value scal);
  rotation ← euler_angles data;
  zyx ← unpack_T rotation;
  stmp ← getitem block_dict "STMP";
  Ok {| CoriData.cts := value stmp;
        CoriData.z := zyx.1.1;
        CoriData.y := zyx.1.2;
        CoriData.x := zyx.2 |}.

(** *** One decoder, with the key as a parameter

    The body the two functions above share, with the key of the
    quaternion channel as a parameter, as the specification asks for
    (4.2, 9): same steps, in the same order. Its result is the
    specification's Orientation Sample Set, the four fields common to
    [IoriData] and [CoriData]. *)
Record OrientationSampleSet : Type :=
  mkSampleSet { cts : payload; z : list float; y : list float; x : list float }.

Definition decode (channel : string) (block : list KLVItem)
    : result OrientationSampleSet :=
  let lookup := block_dict block in
  quat ← getitem lookup channel;
  raw ← times_one (value quat);
  scal ← getitem lookup "SCAL";
  physical ← divided_by raw (value scal);
  angles ← euler_angles physical;
  columns ← unpack_T angles;
  stmp ← getitem lookup "STMP";
  Ok (mkSampleSet (value stmp) columns.1.1 columns.1.2 columns.2).

(** What the decoders do once [data] is known: convert, transpose, look
    the timestamps up, emit. *)
Definition sample_set_of_data (block : list KLVItem) (data : ndarray float)
    : result OrientationSampleSet :=
  angles ← euler_angles data;
  columns ← unpack_T angles;
  stmp ← getitem (block_dict block) "STMP";
  Ok (mkSampleSet (value stmp) columns.1.1 columns.1.2 columns.2).

End Decoder.

Definition iori_fields (r : IoriData.t) : OrientationSampleSet :=
  mkSampleSet (IoriData.cts r) (IoriData.z r) (IoriData.y r) (IoriData.x r).

Definition cori_fields (r : CoriData.t) : OrientationSampleSet :=
  mkSampleSet (CoriData.cts r) (CoriData.z r) (CoriData.y r) (CoriData.x r).

(** A conversion to run the decoders with on concrete blocks. It knows
    the quaternions [(0, 0, 0, w)] with [w > 0], which scipy normalises
    to the identity rotation (all three angles zero), and refuses
    everything else; among it the zero quaternion, which scipy refuses
    too (a [ValueError], as for every quaternion of norm zero). *)
Definition euler_of_identity (qx qy qz qw : float) : option euler :=
  if ((qx =? 0) && (qy =? 0) && (qz =? 0) && (0 <? qw))%float
  then Some (0, 0, 0)%float else None.

(** The two decoders side by side: each with the quaternion key it
    resolves and its outcome on [block], read as a sample set. *)
Definition decoders (as_euler_zyx : float -> float -> float -> float -> option euler)
    (block : list KLVItem) : list (string * result OrientationSampleSet) :=
  [("IORI", iori_fields <$> parse_iori_block as_euler_zyx block);
   ("CORI", cori_fields <$> parse_cori_block as_euler_zyx block)].

(** A key is absent from a block when no record carries it. *)
Definition absent (k : string) (block : list KLVItem) : Prop :=
  forall elt, elt ∈ block -> key elt ≠ k.

(** Two blocks that resolve each of the keys to the same record. *)
Definition same_records (keys : list string) (block1 block2 : list KLVItem) : Prop :=
  forall k, k ∈ keys -> block_dict block1 !! k = block_dict block2 !! k.

(** The two channel keys exchanged, on a key, a record and an outcome. *)
Definition swap_channel (k : string) : string :=
  if decide (k = "IORI") then "CORI"
  else if decide (k = "CORI") then "IORI" else k.

Definition rekey (s : KLVItem) : KLVItem :=
  mkKLVItem (swap_channel (key s)) (value s).

Definition rekey_outcome {A} (r : result A) : result A :=
  match r with
  | Raise (KeyError k) => Raise (KeyError (swap_channel k))
  | _ => r
  end.

(** An outcome that is not a [KeyError]. *)
Definition numeric_outcome {A} (r : result A) : Prop :=
  match r with
  | Raise (KeyError _) => False
  | _ => True
  end.

(** A scale of zero (an integer 0, or a float64 zero of either sign). *)
Definition is_zero (s : number) : bool :=
  match Prim2SF (to_float s) with
  | S754_zero _ => true
  | _ => false
  end.

(** An infinity or a nan. *)
Definition not_finite (v : float) : Prop :=
  match Prim2SF v with
  | S754_infinity _ | S754_nan => True
  | _ => False
  end.



(** ** Sample blocks *)

Definition identity_quat (w : Z) : list number := [NInt 0; NInt 0; NInt 0; NInt w].

(** A block as the camera emits it, with two samples. *)
Definition block_two_samples (channel : string) : list KLVItem :=
  [ mkKLVItem "STMP" (PNum (Arr1 [NInt 1000; NInt 2000]));
    mkKLVItem "STNM" (PText "orientation");
    mkKLVItem "SCAL" (PNum (Arr0 (NInt 32767)));
    mkKLVItem channel (PNum (Arr2 [identity_quat 32767; identity_quat 32767])) ].

(** Three timestamps for two quaternion samples. *)
Definition block_three_stamps_two_samples : list KLVItem :=
  [ mkKLVItem "SCAL" (PNum (Arr0 (NInt 2)));
    mkKLVItem "STMP" (PNum (Arr1 [NInt 0; NInt 1; NInt 2]));
    mkKLVItem "IORI" (PNum (Arr2 [identity_quat 2; identity_quat 2])) ].

(** No [STMP], and a first sample that is the zero quaternion, which
    scipy refuses ("Found zero norm quaternions"). *)
Definition block_zero_quaternion_no_stmp : list KLVItem :=
  [ mkKLVItem "SCAL" (PNum (Arr0 (NInt 32767)));
    mkKLVItem "IORI" (PNum (Arr2 [identity_quat 0; identity_quat 32767])) ].

(** No [SCAL]. *)
Definition block_no_scal (channel : string) : list KLVItem :=
  [ mkKLVItem "STMP" (PNum (Arr1 [NInt 1000; NInt 2000]));
    mkKLVItem channel (PNum (Arr2 [identity_quat 1; identity_quat 1])) ].

(** A scale of zero. *)
Definition block_zero_scale (channel : string) : list KLVItem :=
  [ mkKLVItem "STMP" (PNum (Arr1 [NInt 1000; NInt 2000]));
    mkKLVItem "SCAL" (PNum (Arr0 (NInt 0)));
    mkKLVItem channel (PNum (Arr2 [identity_quat 1; identity_quat 1])) ].



(** A stream given as its containers, and three containers: one with
    the key [CORI] once, one without it, one with it twice. *)
Definition containers_of (strm : list Container.t) (k : string)
    : list Container.t := strm.

Definition container_once : Container.t := Container.mk (block_two_samples "CORI").

Definition container_without : Container.t :=
  Container.mk [mkKLVItem "STNM" (PText "gyro"); mkKLVItem "GYRO" (PNum (Arr1 [NInt 1]))].

Definition container_twice : Container.t :=
  Container.mk (block_two_samples "CORI" ++ block_two_samples "CORI").

(** What [block_two_samples] decodes to with [euler_of_identity]. *)
Definition two_samples_decoded : OrientationSampleSet :=
  mkSampleSet (PNum (Arr1 [NInt 1000; NInt 2000]))
    [0%float; 0%float] [0%float; 0%float] [0%float; 0%float].

(** The records of [block_two_samples], one by one. *)
Definition stmp_record : KLVItem :=
  mkKLVItem "STMP" (PNum (Arr1 [NInt 1000; NInt 2000])).

Definition stnm_record : KLVItem := mkKLVItem "STNM" (PText "orientation").

Definition scal_record : KLVItem := mkKLVItem "SCAL" (PNum (Arr0 (NInt 32767))).

Definition quat_record (channel : string) : KLVItem :=
  mkKLVItem channel (PNum (Arr2 [identity_quat 32767; identity_quat 32767])).

(** A block with both quaternion records. *)
Definition block_both_channels : list KLVItem :=
  block_two_samples "IORI" ++ [quat_record "CORI"].

(** A quaternion record with a text payload. *)
Definition block_text_quaternion : list KLVItem :=
  [ stmp_record; scal_record; mkKLVItem "IORI" (PText "0,0,0,1") ].

(** A single quaternion, held as a flat vector of four numbers. *)
Definition block_flat_quaternion : list KLVItem :=
  [ stmp_record; scal_record; mkKLVItem "IORI" (PNum (Arr1 (identity_quat 32767))) ].

(** ** Proof steps *)

(** Case analysis on the stage a sequence of binds runs first. *)
Ltac first_stage :=
  match goal with
  | |- context [mbind _ ?r] =>
      lazymatch r with
      | context [mbind _ _] => fail
      | _ => destruct r eqn:?; simpl
      end
  end.

(** Membership of a concrete list, by going through it. *)
Ltac absent_by_cases :=
  let elt := fresh "elt" in
  let Hin := fresh "Hin" in
  intros elt Hin;
  repeat (apply elem_of_cons in Hin as [->|Hin]; [done|]);
  by apply not_elem_of_nil in Hin.

(** A key that is none of the keys of a concrete list. *)
Ltac not_among :=
  let H := fresh "H" in
  intros H;
  repeat (apply elem_of_cons in H as [H|H]; [done|]);
  by apply not_elem_of_nil in H.

(** * Properties *)

(** ** extract_blocks *)

Section SegmenterFacts.

Context {stream : Type} (filter_klv : stream -> string -> list Container.t).

Lemma has_key_elem_of fourcc elts :
  has_key fourcc elts = true <-> exists elt, elt ∈ elts /\ key elt = fourcc.
Proof.
  unfold has_key. rewrite existsb_exists. split.
  - intros (elt & Hin & Hk). exists elt. split.
    + by apply list_elem_of_In.
    + by apply bool_decide_eq_true in Hk.
  - intros (elt & Hin & Hk). exists elt. split.
    + by apply list_elem_of_In.
    + by apply bool_decide_eq_true.
Qed.

Lemma count_key_pos fourcc elts :
  (0 < count_key fourcc elts)%nat -> has_key fourcc elts = true.
Proof.
  unfold count_key. intros Hpos. apply has_key_elem_of.
  destruct (filter _ elts) as [|elt rest] eqn:Hf; [simpl in Hpos; lia|].
  assert (Hin : elt ∈ filter (fun elt => key elt = fourcc) elts)
    by (rewrite Hf; left).
  apply list_elem_of_filter in Hin as [Hk Hin]. eauto.
Qed.

Lemma count_key_zero fourcc elts :
  (forall elt, elt ∈ elts -> key elt ≠ fourcc) -> count_key fourcc elts = 0%nat.
Proof.
  intros Hno. unfold count_key.
  destruct (filter _ elts) as [|elt rest] eqn:Hf; [done|].
  assert (Hin : elt ∈ filter (fun elt => key elt = fourcc) elts)
    by (rewrite Hf; left).
  apply list_elem_of_filter in Hin as [Hk Hin]. by destruct (Hno elt Hin).
Qed.

(** The inner loop, from any state: the buffer grows by the records
    scanned, the flag is raised once the key has been seen. *)
Lemma scan_loop fourcc elts content is_cc :
  foldl (scan_step fourcc) (content, is_cc) elts
  = (content ++ elts, is_cc || has_key fourcc elts).
Proof.
  revert content is_cc.
  induction elts as [|elt elts IH]; intros content is_cc; simpl.
  - by rewrite app_nil_r, orb_false_r.
  - unfold scan_step at 2. simpl. rewrite IH, <- app_assoc. simpl. f_equal.
    case_decide as Hk.
    + rewrite bool_decide_eq_true_2 by done. by rewrite orb_true_r.
    + rewrite bool_decide_eq_false_2 by done. done.
Qed.

Lemma scan_container_spec fourcc s :
  scan_container fourcc s
  = if has_key fourcc (Container.value s) then [Container.value s] else [].
Proof. unfold scan_container. by rewrite scan_loop. Qed.

Lemma scan_container_present fourcc s :
  has_key fourcc (Container.value s) = true ->
  scan_container fourcc s = [Container.value s].
Proof. intros H. by rewrite scan_container_spec, H. Qed.

Lemma scan_container_absent fourcc s :
  (forall elt, elt ∈ Container.value s -> key elt ≠ fourcc) ->
  scan_container fourcc s = [].
Proof.
  intros Hno. rewrite scan_container_spec.
  destruct (has_key _ _) eqn:Hk; [|done].
  apply has_key_elem_of in Hk as (elt & Hin & Hk). by destruct (Hno elt Hin).
Qed.

(** The outer loop: the blocks of the containers, one after the other. *)
Lemma yield_loop fourcc (strms : list Container.t) yielded :
  foldl (fun yielded s => yielded ++ scan_container fourcc s) yielded strms
  = yielded ++ flat_map (scan_container fourcc) strms.
Proof.
  revert yielded. induction strms as [|s strms IH]; intros yielded; simpl.
  - by rewrite app_nil_r.
  - by rewrite IH, app_assoc.
Qed.

Lemma extract_blocks_flat_map strm fourcc :
  extract_blocks stream filter_klv strm fourcc
  = flat_map (scan_container fourcc) (filter_klv strm "STRM").
Proof. unfold extract_blocks. by rewrite yield_loop. Qed.

Lemma extract_blocks_split strm fourcc pre s post :
  filter_klv strm "STRM" = pre ++ s :: post ->
  extract_blocks stream filter_klv strm fourcc
  = flat_map (scan_container fourcc) pre
    ++ scan_container fourcc s
    ++ flat_map (scan_container fourcc) post.
Proof.
  intros Hs. rewrite extract_blocks_flat_map, Hs.
  by rewrite flat_map_app.
Qed.

(** C3. A container with no record of the requested key contributes no
    block: the generator yields the blocks of the containers before it,
    then those of the containers after it. And every block that is
    yielded holds a record with the requested key. *)
Theorem extract_blocks_skips_container_without_key strm fourcc pre s post :
  filter_klv strm "STRM" = pre ++ s :: post ->
  (forall elt, elt ∈ Container.value s -> key elt ≠ fourcc) ->
  extract_blocks stream filter_klv strm fourcc
  = flat_map (scan_container fourcc) pre ++ flat_map (scan_container fourcc) post
  /\ (forall block, block ∈ extract_blocks stream filter_klv strm fourcc ->
                   exists elt, elt ∈ block /\ key elt = fourcc).
Proof.
  intros Hs Hno. split.
  - rewrite (extract_blocks_split _ _ _ _ _ Hs).
    by rewrite (scan_container_absent _ _ Hno).
  - intros block Hin. rewrite extract_blocks_flat_map in Hin.
    apply list_elem_of_In, in_flat_map in Hin as (c & _ & Hin).
    rewrite scan_container_spec in Hin.
    destruct (has_key fourcc (Container.value c)) eqn:Hk; [|by destruct Hin].
    destruct Hin as [<-|[]]. by apply has_key_elem_of.
Qed.

(** C4. A container whose records carry the requested key exactly once
    contributes exactly one block, its full record sequence in the
    original order, between the blocks of the containers before it and
    those of the containers after it. *)
Theorem extract_blocks_key_once strm fourcc pre s post :
  filter_klv strm "STRM" = pre ++ s :: post ->
  count_key fourcc (Container.value s) = 1%nat ->
  scan_container fourcc s = [Container.value s]
  /\ extract_blocks stream filter_klv strm fourcc
     = flat_map (scan_container fourcc) pre
       ++ [Container.value s]
       ++ flat_map (scan_container fourcc) post.
Proof.
  intros Hs Hone.
  assert (Hk : has_key fourcc (Container.value s) = true)
    by (apply count_key_pos; lia).
  split; [by apply scan_container_present|].
  rewrite (extract_blocks_split _ _ _ _ _ Hs).
  by rewrite (scan_container_present _ _ Hk).
Qed.

(** C5. A container whose records carry the requested key more than
    once still contributes exactly one block, holding all its records:
    the test is on presence, not on the count. *)
Theorem extract_blocks_key_repeated strm fourcc pre s post :
  filter_klv strm "STRM" = pre ++ s :: post ->
  (1 < count_key fourcc (Container.value s))%nat ->
  scan_container fourcc s = [Container.value s]
  /\ extract_blocks stream filter_klv strm fourcc
     = flat_map (scan_container fourcc) pre
       ++ [Container.value s]
       ++ flat_map (scan_container fourcc) post.
Proof.
  intros Hs Hmany.
  assert (Hk : has_key fourcc (Container.value s) = true)
    by (apply count_key_pos; lia).
  split; [by apply scan_container_present|].
  rewrite (extract_blocks_split _ _ _ _ _ Hs).
  by rewrite (scan_container_present _ _ Hk).
Qed.

End SegmenterFacts.

(** ** The dictionary of a block *)

Lemma block_dict_fold (block : list KLVItem) (d : gmap string KLVItem) k :
  foldl (fun d s => <[key s := s]> d) d block !! k
  = match last (filter (fun s => key s = k) block) with
    | Some s => Some s
    | None => d !! k
    end.
Proof.
  revert d. induction block as [|s block IH]; intros d; [done|].
  simpl. rewrite IH. rewrite filter_cons. case_decide as Hk.
  - destruct (filter _ block) as [|s' rest] eqn:Hf; simpl.
    + subst k. by rewrite lookup_insert_eq.
    + destruct (last (s' :: rest)) eqn:Hl; [done|]. by apply last_None in Hl.
  - destruct (last _); [done|]. by rewrite lookup_insert_ne.
Qed.

(** A key resolves to the last record of the block that carries it. *)
Lemma block_dict_lookup (block : list KLVItem) k :
  block_dict block !! k = last (filter (fun s => key s = k) block).
Proof.
  unfold block_dict. rewrite block_dict_fold, lookup_empty.
  by destruct (last _).
Qed.

Lemma block_dict_Some (block : list KLVItem) k s :
  block_dict block !! k = Some s -> s ∈ block /\ key s = k.
Proof.
  rewrite block_dict_lookup. intros Hl.
  assert (Hin : s ∈ filter (fun s => key s = k) block).
  { apply last_Some in Hl as [l' ->]. apply elem_of_app. right. left. }
  apply list_elem_of_filter in Hin. tauto.
Qed.

Lemma block_dict_None (block : list KLVItem) k :
  block_dict block !! k = None <-> (forall elt, elt ∈ block -> key elt ≠ k).
Proof.
  rewrite block_dict_lookup, last_None. split.
  - intros Hf elt Hin Hk.
    assert (H : elt ∈ filter (fun s => key s = k) block)
      by (by apply list_elem_of_filter).
    rewrite Hf in H. by apply not_elem_of_nil in H.
  - intros Hno. destruct (filter _ block) as [|s rest] eqn:Hf; [done|].
    assert (H : s ∈ filter (fun s => key s = k) block) by (rewrite Hf; left).
    apply list_elem_of_filter in H as [Hk Hin]. by destruct (Hno s Hin).
Qed.

Lemma getitem_Ok d k s : getitem d k = Ok s <-> d !! k = Some s.
Proof. unfold getitem. destruct (d !! k); split; congruence. Qed.

Lemma getitem_absent d k : d !! k = None -> getitem d k = Raise (KeyError k).
Proof. unfold getitem. by intros ->. Qed.

(** ** numpy facts *)

Lemma map_results_length {A C} (f : A -> result C) u cs :
  map_results f u = Ok cs -> length cs = length u.
Proof.
  revert cs. induction u as [|a u IH]; intros cs; simpl.
  - by intros [= <-].
  - destruct (f a); [|done]. simpl.
    destruct (map_results f u) as [cs'|]; [|done]. simpl.
    intros [= <-]. simpl. f_equal. by apply IH.
Qed.

(** Division by a scalar divides every element; no shape is refused. *)
Lemma true_divide_scalar a y :
  true_divide a (Arr0 y) = Ok (amap (fun x => div1 x y) a).
Proof. by destruct a. Qed.

Lemma amap_compose {A B C} (f : A -> B) (g : B -> C) (a : ndarray A) :
  amap g (amap f a) = amap (fun x => g (f x)) a.
Proof.
  destruct a as [x|v|m]; simpl; [done| |].
  - by rewrite map_map.
  - rewrite map_map. f_equal. apply map_ext. intros r. by rewrite map_map.
Qed.

Lemma all_elements_amap {A B} (P : B -> Prop) (f : A -> B) (a : ndarray A) :
  (forall x, P (f x)) -> all_elements P (amap f a).
Proof.
  intros HP. destruct a as [x|v|m]; simpl; [done| |].
  - apply Forall_map, Forall_forall. auto.
  - apply Forall_map, Forall_forall. intros r _.
    apply Forall_map, Forall_forall. auto.
Qed.

(** IEEE 754: anything over a zero is an infinity or a nan. *)
Lemma div_zero_not_finite (v d : float) sg :
  Prim2SF d = S754_zero sg -> not_finite (v / d).
Proof.
  intros Hd. unfold not_finite. rewrite div_spec, Hd.
  by destruct (Prim2SF v).
Qed.






(** The numeric steps raise [TypeError] or [ValueError], never a
    [KeyError]. *)
Lemma map_results_numeric {A C} (f : A -> result C) u :
  (forall a, numeric_outcome (f a)) -> numeric_outcome (map_results f u).
Proof.
  intros Hf. induction u as [|a u IH]; simpl; [done|].
  specialize (Hf a). destruct (f a); [simpl|done].
  by destruct (map_results f u).
Qed.

Lemma zip_results_numeric {A B C} (f : A -> B -> result C) u v :
  (forall a b, numeric_outcome (f a b)) -> numeric_outcome (zip_results f u v).
Proof.
  intros Hf. revert v. induction u as [|a u IH]; intros [|b v]; simpl; try done.
  specialize (Hf a b). destruct (f a b); [simpl|done].
  specialize (IH v). by destruct (zip_results f u v).
Qed.

Lemma broadcast_numeric {A B C} (f : A -> B -> result C) u v :
  (forall a b, numeric_outcome (f a b)) -> numeric_outcome (broadcast f u v).
Proof.
  intros Hf. unfold broadcast. case_decide.
  - by apply zip_results_numeric.
  - destruct u as [|a [|a' u]]; destruct v as [|b [|b' v]];
      first [ done
            | exact (map_results_numeric _ _ (Hf a))
            | exact (map_results_numeric (fun a => f a b) _ (fun a => Hf a b)) ].
Qed.

Lemma fmap_numeric {A B} (g : A -> B) (r : result A) :
  numeric_outcome r -> numeric_outcome (g <$> r).
Proof. by destruct r. Qed.

Lemma true_divide_numeric a b : numeric_outcome (true_divide a b).
Proof.
  destruct a, b; simpl; try done; apply fmap_numeric.
  - by apply broadcast_numeric.
  - apply map_results_numeric. intros. by apply broadcast_numeric.
  - apply map_results_numeric. intros. by apply broadcast_numeric.
  - apply broadcast_numeric. intros. by apply broadcast_numeric.
Qed.

Lemma times_one_numeric p : numeric_outcome (times_one p).
Proof. by destruct p. Qed.

Lemma divided_by_numeric a p : numeric_outcome (divided_by a p).
Proof. destruct p; [apply true_divide_numeric|done]. Qed.

(** ** The decoders *)

Section DecoderFacts.

Variable as_euler_zyx : float -> float -> float -> float -> option euler.


(** Each decoder is the decoder of the specification at its own key. *)
Lemma parse_iori_block_decode block :
  iori_fields <$> parse_iori_block as_euler_zyx block
  = decode as_euler_zyx "IORI" block.
Proof.
  unfold parse_iori_block, decode.
  repeat (first_stage; [|done]). done.
Qed.

Lemma parse_cori_block_decode block :
  cori_fields <$> parse_cori_block as_euler_zyx block
  = decode as_euler_zyx "CORI" block.
Proof.
  unfold parse_cori_block, decode.
  repeat (first_stage; [|done]). done.
Qed.

Lemma decode_stages channel block :
  decode as_euler_zyx channel block
  = (data ← quaternion_data channel block;
     sample_set_of_data as_euler_zyx block data).
Proof.
  unfold decode, quaternion_data, sample_set_of_data.
  repeat (first_stage; [|done]). done.
Qed.

(** What a successful decode went through. *)
Lemma decode_Ok channel block r :
  decode as_euler_zyx channel block = Ok r ->
  exists data angles stmp,
    quaternion_data channel block = Ok data
    /\ euler_angles as_euler_zyx data = Ok angles
    /\ angles ≠ []
    /\ block_dict block !! "STMP" = Some stmp
    /\ r = mkSampleSet (value stmp)
             (map (fun e => e.1.1) angles)
             (map (fun e => e.1.2) angles)
             (map (fun e => e.2) angles).
Proof.
  rewrite decode_stages. unfold sample_set_of_data.
  destruct (quaternion_data channel block) as [data|] eqn:Hdata; [simpl|done].
  destruct (euler_angles as_euler_zyx data) as [angles|] eqn:Hang; [simpl|done].
  destruct angles as [|e angles]; [done|]. simpl.
  destruct (getitem _ "STMP") as [stmp|] eqn:Hstmp; [simpl|done].
  intros [= <-]. apply getitem_Ok in Hstmp.
  by exists data, (e :: angles), stmp.
Qed.

(** Only a 2-D array gets through the conversion with an angle triple
    for each of its rows. *)
Lemma euler_angles_Ok data angles :
  euler_angles as_euler_zyx data = Ok angles -> angles ≠ [] ->
  exists m, data = Arr2 m /\ length angles = length m.
Proof.
  destruct data as [f|v|m]; simpl; [done| |].
  - destruct v as [|f v]; simpl; [by intros [= <-]|done].
  - intros Hm _. exists m. split; [done|]. by eapply map_results_length.
Qed.

Lemma euler_angles_numeric data :
  numeric_outcome (euler_angles as_euler_zyx data).
Proof.
  destruct data as [f|v|m]; simpl; [done| |].
  - by apply map_results_numeric.
  - apply map_results_numeric. intros q. unfold quat_to_euler.
    destruct q as [|qx [|qy [|qz [|qw [|]]]]]; try done.
    by destruct (as_euler_zyx qx qy qz qw).
Qed.

Lemma decoders_decode block channel outcome :
  (channel, outcome) ∈ decoders as_euler_zyx block ->
  outcome = decode as_euler_zyx channel block.
Proof.
  unfold decoders. intros Hin.
  apply elem_of_cons in Hin as [[= -> ->]|Hin];
    [by rewrite parse_iori_block_decode|].
  apply elem_of_cons in Hin as [[= -> ->]|Hin];
    [by rewrite parse_cori_block_decode|].
  by apply not_elem_of_nil in Hin.
Qed.

(** C1, amended. On every block a decoder succeeds on, [z], [y] and [x]
    have the same length: the number of rows of the rescaled quaternion
    array. (The length of [cts] is not part of it: [cts] is the payload
    of [STMP] as supplied.) *)
Theorem decoded_angles_aligned block channel r :
  (channel, Ok r) ∈ decoders as_euler_zyx block ->
  length (z r) = length (y r)
  /\ length (y r) = length (x r)
  /\ exists m, quaternion_data channel block = Ok (Arr2 m)
              /\ length (z r) = length m.
Proof.
  intros Hin. apply decoders_decode in Hin. symmetry in Hin.
  apply decode_Ok in Hin as (data & angles & stmp & Hdata & Hang & Hne & _ & ->).
  simpl. rewrite !length_map. do 2 (split; [done|]).
  destruct (euler_angles_Ok _ _ Hang Hne) as (m & -> & Hlen). eauto.
Qed.

(** C8. On every block a decoder succeeds on, [cts] is the payload of
    the [STMP] record the block resolves to, as it stands. *)
Theorem cts_is_stmp_value block channel r :
  (channel, Ok r) ∈ decoders as_euler_zyx block ->
  exists stmp, stmp ∈ block /\ key stmp = "STMP"
               /\ block_dict block !! "STMP" = Some stmp
               /\ cts r = value stmp.
Proof.
  intros Hin. apply decoders_decode in Hin. symmetry in Hin.
  apply decode_Ok in Hin as (data & angles & stmp & _ & _ & _ & Hstmp & ->).
  exists stmp. destruct (block_dict_Some _ _ _ Hstmp). done.
Qed.

Lemma quaternion_data_same_records channel block1 block2 :
  same_records [channel; "SCAL"; "STMP"] block1 block2 ->
  quaternion_data channel block1 = quaternion_data channel block2.
Proof.
  intros Hsame. unfold quaternion_data, getitem.
  rewrite (Hsame channel) by apply list_elem_of_here.
  rewrite (Hsame "SCAL"); [done|].
  apply list_elem_of_further, list_elem_of_here.
Qed.

Lemma decode_same_records channel block1 block2 :
  same_records [channel; "SCAL"; "STMP"] block1 block2 ->
  decode as_euler_zyx channel block1 = decode as_euler_zyx channel block2.
Proof.
  intros Hsame. rewrite !decode_stages.
  rewrite (quaternion_data_same_records _ _ _ Hsame).
  unfold sample_set_of_data, getitem. rewrite (Hsame "STMP"); [done|].
  do 2 apply list_elem_of_further. apply list_elem_of_here.
Qed.

(** The rescale, when the scale is a single value. *)
Lemma quaternion_data_scalar block channel quat a scal s :
  block_dict block !! channel = Some quat -> value quat = PNum a ->
  block_dict block !! "SCAL" = Some scal -> value scal = PNum (Arr0 s) ->
  quaternion_data channel block
  = Ok (amap (fun raw => (to_float raw * 1 / to_float s)%float) a).
Proof.
  intros Hq Ha Hs Hscal. unfold quaternion_data, getitem.
  rewrite Hq. simpl. rewrite Ha. simpl. rewrite Hs. simpl. rewrite Hscal. simpl.
  rewrite true_divide_scalar. unfold mul_one. by rewrite amap_compose.
Qed.


(** C10. A scale of zero is divided by like any other: the rescale
    raises nothing, every element of its result is an infinity or a nan,
    and the outcome is whatever the later steps make of that array. *)
Theorem zero_scale_not_guarded block channel outcome quat a scal s :
  (channel, outcome) ∈ decoders as_euler_zyx block ->
  block_dict block !! channel = Some quat -> value quat = PNum a ->
  block_dict block !! "SCAL" = Some scal -> value scal = PNum (Arr0 s) ->
  is_zero s = true ->
  let data := amap (fun raw => (to_float raw * 1 / to_float s)%float) a in
  quaternion_data channel block = Ok data
  /\ all_elements not_finite data
  /\ outcome = sample_set_of_data as_euler_zyx block data.
Proof.
  intros Hin Hq Ha Hs Hscal Hzero data.
  assert (Hdata := quaternion_data_scalar _ _ _ _ _ _ Hq Ha Hs Hscal).
  split; [done|]. split.
  - apply all_elements_amap. intros raw. unfold is_zero in Hzero.
    destruct (Prim2SF (to_float s)) as [sg| | |] eqn:Hsf; try done.
    by eapply div_zero_not_finite.
  - apply decoders_decode in Hin as ->.
    by rewrite decode_stages, Hdata.
Qed.

(** Why a decode fails: a lookup that finds no record, or the step
    before it. *)
Lemma decode_Raise channel block e :
  decode as_euler_zyx channel block = Raise e ->
  (e = KeyError channel /\ absent channel block)
  \/ (e = KeyError "SCAL"
      /\ absent "SCAL" block
      /\ exists quat a,
           block_dict block !! channel = Some quat /\ value quat = PNum a)
  \/ (e = KeyError "STMP"
      /\ absent "STMP" block
      /\ exists data angles,
           quaternion_data channel block = Ok data
           /\ euler_angles as_euler_zyx data = Ok angles /\ angles ≠ [])
  \/ ((forall k, e ≠ KeyError k)
      /\ (quaternion_data channel block = Raise e
          \/ exists data,
               quaternion_data channel block = Ok data
               /\ (euler_angles as_euler_zyx data = Raise e
                   \/ (euler_angles as_euler_zyx data = Ok [] /\ e = ValueError)))).
Proof.
  assert (Hnum : forall A (r : result A) e',
             numeric_outcome r -> r = Raise e' -> forall k, e' ≠ KeyError k).
  { intros A r e' Hn -> k ->. done. }
  unfold decode, quaternion_data, getitem.
  destruct (block_dict block !! channel) as [quat|] eqn:Hq; simpl.
  2:{ intros [= <-]. left. split; [done|].
      exact (proj1 (block_dict_None block channel) Hq). }
  destruct (times_one (value quat)) as [product|e1] eqn:Ht; simpl.
  2:{ intros [= ->]. do 3 right. split; [|by left].
      eapply Hnum; [apply (times_one_numeric (value quat))|done]. }
  destruct (block_dict block !! "SCAL") as [scal|] eqn:Hs; simpl.
  2:{ intros [= <-]. right. left. split; [done|]. split.
      - exact (proj1 (block_dict_None block "SCAL") Hs).
      - revert Ht. destruct (value quat) as [a|] eqn:Hv; [intros _|done].
        by exists quat, a. }
  destruct (divided_by product (value scal)) as [data|e2] eqn:Hd; simpl.
  2:{ intros [= ->]. do 3 right. split; [|by left].
      eapply Hnum; [apply (divided_by_numeric product (value scal))|done]. }
  destruct (euler_angles as_euler_zyx data) as [angles|e3] eqn:Ha; simpl.
  2:{ intros [= ->]. do 3 right. split.
      - eapply Hnum; [apply (euler_angles_numeric data)|done].
      - right. exists data. split; [done|]. by left. }
  destruct angles as [|a0 angles]; simpl.
  { intros [= <-]. do 3 right. split; [done|].
    right. exists data. split; [done|]. by right. }
  destruct (block_dict block !! "STMP") as [stmp|] eqn:Hst; simpl; [done|].
  intros [= <-]. do 2 right. left. split; [done|]. split.
  - exact (proj1 (block_dict_None block "STMP") Hst).
  - by exists data, (a0 :: angles).
Qed.

(** C2, amended. On a block from which a required record is absent a
    decoder returns no result. It raises [KeyError] for the quaternion
    key when that record is absent; for [SCAL] when the quaternion
    record is there with a numeric payload; for [STMP] when the rescale
    and the conversion to angles went through with at least one sample.
    In every other case it raises the error of the step that fails
    before the absent key is looked up, which is not a [KeyError]: that
    of the rescale, that of the conversion, or the [ValueError] of
    unpacking no sample at all. *)
Theorem missing_record_fails block channel outcome :
  (channel, outcome) ∈ decoders as_euler_zyx block ->
  absent channel block \/ absent "SCAL" block \/ absent "STMP" block ->
  is_ok outcome = false
  /\ (absent channel block -> outcome = Raise (KeyError channel))
  /\ (forall quat a,
        block_dict block !! channel = Some quat -> value quat = PNum a ->
        absent "SCAL" block -> outcome = Raise (KeyError "SCAL"))
  /\ (forall data angles,
        quaternion_data channel block = Ok data ->
        euler_angles as_euler_zyx data = Ok angles -> angles ≠ [] ->
        absent "STMP" block -> outcome = Raise (KeyError "STMP"))
  /\ exists e,
       outcome = Raise e
       /\ ((e = KeyError channel /\ absent channel block)
           \/ (e = KeyError "SCAL"
               /\ absent "SCAL" block
               /\ exists quat a,
                    block_dict block !! channel = Some quat
                    /\ value quat = PNum a)
           \/ (e = KeyError "STMP"
               /\ absent "STMP" block
               /\ exists data angles,
                    quaternion_data channel block = Ok data
                    /\ euler_angles as_euler_zyx data = Ok angles
                    /\ angles ≠ [])
           \/ ((forall k, e ≠ KeyError k)
               /\ (quaternion_data channel block = Raise e
                   \/ exists data,
                        quaternion_data channel block = Ok data
                        /\ (euler_angles as_euler_zyx data = Raise e
                            \/ (euler_angles as_euler_zyx data = Ok []
                                /\ e = ValueError))))).
Proof.
  intros Hin Hmiss. apply decoders_decode in Hin as ->.
  assert (Hchan : absent channel block ->
                  decode as_euler_zyx channel block = Raise (KeyError channel)).
  { intros Habs%block_dict_None. unfold decode.
    by rewrite (getitem_absent _ _ Habs). }
  assert (Hscal : forall quat a,
             block_dict block !! channel = Some quat -> value quat = PNum a ->
             absent "SCAL" block ->
             decode as_euler_zyx channel block = Raise (KeyError "SCAL")).
  { intros quat a Hq Ha Habs%block_dict_None. unfold decode, getitem.
    rewrite Hq. simpl. rewrite Ha. simpl. by rewrite Habs. }
  assert (Hstmp : forall data angles,
             quaternion_data channel block = Ok data ->
             euler_angles as_euler_zyx data = Ok angles -> angles ≠ [] ->
             absent "STMP" block ->
             decode as_euler_zyx channel block = Raise (KeyError "STMP")).
  { intros data angles Hdata Hang Hne Habs%block_dict_None.
    rewrite decode_stages, Hdata. simpl. unfold sample_set_of_data.
    rewrite Hang. simpl. destruct angles; [done|]. simpl.
    by rewrite (getitem_absent _ _ Habs). }
  assert (Hfail : is_ok (decode as_euler_zyx channel block) = false).
  { destruct (decode as_euler_zyx channel block) as [r|e] eqn:Hdec; [|done].
    exfalso.
    apply decode_Ok in Hdec as (data & angles & stmp & Hdata & _ & _ & Hst & _).
    unfold quaternion_data in Hdata.
    destruct (getitem (block_dict block) channel) as [quat|] eqn:Hq; [|done].
    simpl in Hdata. destruct (times_one (value quat)); [|done].
    simpl in Hdata.
    destruct (getitem (block_dict block) "SCAL") as [scal|] eqn:Hs; [|done].
    apply getitem_Ok in Hq, Hs.
    destruct Hmiss as [Habs|[Habs|Habs]]; apply block_dict_None in Habs;
      congruence. }
  do 4 (split; [done|]).
  destruct (decode as_euler_zyx channel block) as [r|e] eqn:Hdec; [done|].
  exists e. split; [done|]. by apply decode_Raise.
Qed.

(** Exchanging the channel keys of the records exchanges what the two
    keys resolve to. *)
Lemma swap_channel_inj k1 k2 : swap_channel k1 = swap_channel k2 -> k1 = k2.
Proof.
  unfold swap_channel. repeat case_decide; congruence.
Qed.

Lemma block_dict_rekey (block : list KLVItem) k :
  block_dict (rekey <$> block) !! swap_channel k
  = rekey <$> (block_dict block !! k).
Proof.
  rewrite !block_dict_lookup.
  induction block as [|s block IH] using rev_ind; [done|].
  rewrite fmap_app, !filter_app, !last_app. simpl.
  rewrite !filter_cons, !filter_nil. simpl.
  destruct (decide (key s = k)) as [Hk|Hk].
  - rewrite decide_True by (by rewrite Hk). done.
  - rewrite decide_False by (intros H; by apply swap_channel_inj in H). done.
Qed.

Lemma decode_rekey block :
  decode as_euler_zyx "CORI" (rekey <$> block)
  = rekey_outcome (decode as_euler_zyx "IORI" block).
Proof.
  rewrite !decode_stages.
  assert (Hdata : quaternion_data "CORI" (rekey <$> block)
                  = rekey_outcome (quaternion_data "IORI" block)).
  { unfold quaternion_data, getitem.
    change "CORI" with (swap_channel "IORI").
    change "SCAL" with (swap_channel "SCAL") at 1 2.
    rewrite !block_dict_rekey.
    destruct (block_dict block !! "IORI") as [quat|]; [simpl|done].
    destruct (times_one (value quat)) as [raw|e] eqn:Hraw; simpl.
    2:{ pose proof (times_one_numeric (value quat)) as Hn.
        rewrite Hraw in Hn. by destruct e. }
    destruct (block_dict block !! "SCAL") as [scal|]; [simpl|done].
    pose proof (divided_by_numeric raw (value scal)) as Hn.
    by destruct (divided_by raw (value scal)) as [data|[]]. }
  rewrite Hdata.
  destruct (quaternion_data "IORI" block) as [data|e]; simpl;
    [|by destruct e].
  unfold sample_set_of_data, getitem.
  change "STMP" with (swap_channel "STMP") at 1 2.
  rewrite block_dict_rekey.
  pose proof (euler_angles_numeric data) as Hn.
  destruct (euler_angles as_euler_zyx data) as [angles|e]; simpl;
    [|by destruct e].
  destruct angles as [|e angles]; [done|]. simpl.
  by destruct (block_dict block !! "STMP").
Qed.

(** C7. Each decoder is the one decoder of the specification at its own
    quaternion key, and exchanging the keys IORI and CORI in a block
    makes [parse_cori_block] return what [parse_iori_block] returns on
    the block as it was: the same [cts], [z], [y], [x], or the same
    error (a [KeyError] naming the exchanged key). *)
Theorem decoders_differ_in_key_only block :
  iori_fields <$> parse_iori_block as_euler_zyx block
  = decode as_euler_zyx "IORI" block
  /\ cori_fields <$> parse_cori_block as_euler_zyx block
     = decode as_euler_zyx "CORI" block
  /\ cori_fields <$> parse_cori_block as_euler_zyx (rekey <$> block)
     = rekey_outcome (iori_fields <$> parse_iori_block as_euler_zyx block).
Proof.
  split; [apply parse_iori_block_decode|].
  split; [apply parse_cori_block_decode|].
  rewrite parse_cori_block_decode, parse_iori_block_decode.
  apply decode_rekey.
Qed.

End DecoderFacts.

(** * The properties on the sample blocks *)

(** The unit contract of the specification (8): a scale of 2.0, the
    timestamps 0 and 1, two quaternions on the w axis. *)
Example unit_contract :
  parse_iori_block euler_of_identity
    [ mkKLVItem "SCAL" (PNum (Arr0 (NFloat 2)));
      mkKLVItem "STMP" (PNum (Arr1 [NInt 0; NInt 1]));
      mkKLVItem "IORI" (PNum (Arr2 [identity_quat 1; identity_quat 1])) ]
  = Ok {| IoriData.cts := PNum (Arr1 [NInt 0; NInt 1]);
          IoriData.z := [0; 0]%float;
          IoriData.y := [0; 0]%float;
          IoriData.x := [0; 0]%float |}.
Proof. reflexivity. Qed.

Lemma extract_blocks_skips_container_without_key_witness :
  (forall elt, elt ∈ Container.value container_without -> key elt ≠ "CORI")
  /\ extract_blocks (list Container.t) containers_of
       [container_once; container_without; container_twice] "CORI"
     = [Container.value container_once; Container.value container_twice].
Proof.
  split; [absent_by_cases|].
  apply (extract_blocks_skips_container_without_key containers_of
           [container_once; container_without; container_twice] "CORI"
           [container_once] container_without [container_twice]);
    [reflexivity | absent_by_cases].
Defined.

Lemma extract_blocks_key_once_witness :
  count_key "CORI" (Container.value container_once) = 1%nat
  /\ extract_blocks (list Container.t) containers_of
       [container_without; container_once; container_without] "CORI"
     = [Container.value container_once].
Proof.
  split; [reflexivity|].
  apply (extract_blocks_key_once containers_of
           [container_without; container_once; container_without] "CORI"
           [container_without] container_once [container_without]);
    reflexivity.
Defined.

Lemma extract_blocks_key_repeated_witness :
  count_key "CORI" (Container.value container_twice) = 2%nat
  /\ extract_blocks (list Container.t) containers_of
       [container_without; container_twice; container_once] "CORI"
     = [Container.value container_twice; Container.value container_once].
Proof.
  split; [reflexivity|].
  apply (extract_blocks_key_repeated containers_of
           [container_without; container_twice; container_once] "CORI"
           [container_without] container_twice [container_once]);
    [reflexivity | vm_compute; lia].
Defined.

Lemma decoded_angles_aligned_witness :
  (length (z two_samples_decoded) = 2 /\ length (y two_samples_decoded) = 2
   /\ length (x two_samples_decoded) = 2)%nat
  /\ exists m, quaternion_data "IORI" (block_two_samples "IORI") = Ok (Arr2 m)
               /\ length (z two_samples_decoded) = length m.
Proof.
  split; [by repeat split|].
  apply (decoded_angles_aligned euler_of_identity
           (block_two_samples "IORI") "IORI" two_samples_decoded).
  vm_compute. apply list_elem_of_here.
Defined.

(** C1 as stated fails: with three timestamps and two quaternion
    samples the decoder succeeds, [cts] has three entries and [z], [y],
    [x] have two. *)
Lemma stamps_and_samples_disagree :
  exists r,
    parse_iori_block euler_of_identity block_three_stamps_two_samples = Ok r
    /\ payload_len (IoriData.cts r) = Ok 3%nat
    /\ length (IoriData.z r) = 2%nat
    /\ payload_len (IoriData.cts r) ≠ Ok (length (IoriData.z r)).
Proof.
  eexists. split; [vm_compute; reflexivity|]. by repeat split.
Qed.

Lemma missing_record_fails_witness :
  absent "SCAL" (block_no_scal "CORI")
  /\ cori_fields <$> parse_cori_block euler_of_identity (block_no_scal "CORI")
     = Raise (KeyError "SCAL").
Proof.
  split; [absent_by_cases|].
  assert (Hin : ("CORI", cori_fields
                           <$> parse_cori_block euler_of_identity (block_no_scal "CORI"))
                ∈ decoders euler_of_identity (block_no_scal "CORI"))
    by apply list_elem_of_further, list_elem_of_here.
  assert (Habs : absent "CORI" (block_no_scal "CORI")
                 \/ absent "SCAL" (block_no_scal "CORI")
                 \/ absent "STMP" (block_no_scal "CORI"))
    by (right; left; absent_by_cases).
  destruct (missing_record_fails euler_of_identity _ _ _ Hin Habs)
    as (_ & _ & Hscal & _).
  eapply Hscal; [vm_compute; reflexivity | reflexivity | absent_by_cases].
Defined.

(** C2 as stated fails: [STMP] is absent, yet the error is not the
    missing key, it is the [ValueError] of the conversion, which runs
    before [STMP] is looked up. *)
Lemma missing_stmp_raises_value_error :
  absent "STMP" block_zero_quaternion_no_stmp
  /\ parse_iori_block euler_of_identity block_zero_quaternion_no_stmp
     = Raise ValueError
  /\ parse_iori_block euler_of_identity block_zero_quaternion_no_stmp
     ≠ Raise (KeyError "STMP").
Proof.
  split; [absent_by_cases|]. split; [vm_compute; reflexivity|].
  vm_compute. discriminate.
Qed.


Lemma cts_is_stmp_value_witness :
  exists stmp, stmp ∈ block_two_samples "CORI" /\ key stmp = "STMP"
               /\ block_dict (block_two_samples "CORI") !! "STMP" = Some stmp
               /\ cts two_samples_decoded = value stmp.
Proof.
  apply (cts_is_stmp_value euler_of_identity
           (block_two_samples "CORI") "CORI" two_samples_decoded).
  vm_compute. apply list_elem_of_further, list_elem_of_here.
Defined.

Lemma zero_scale_not_guarded_witness :
  is_zero (NInt 0) = true
  /\ quaternion_data "CORI" (block_zero_scale "CORI")
     = Ok (Arr2 [[nan; nan; nan; infinity]; [nan; nan; nan; infinity]]%float).
Proof.
  split; [reflexivity|].
  apply (zero_scale_not_guarded euler_of_identity
           (block_zero_scale "CORI") "CORI"
           (cori_fields <$> parse_cori_block euler_of_identity (block_zero_scale "CORI"))
           (mkKLVItem "CORI" (PNum (Arr2 [identity_quat 1; identity_quat 1])))
           (Arr2 [identity_quat 1; identity_quat 1])
           (mkKLVItem "SCAL" (PNum (Arr0 (NInt 0)))) (NInt 0));
    [apply list_elem_of_further, list_elem_of_here
    | vm_compute; reflexivity | reflexivity
    | vm_compute; reflexivity | reflexivity | reflexivity].
Defined.

(** * Further properties of extract_blocks *)

Section SegmenterSelection.

Context {stream : Type} (filter_klv : stream -> string -> list Container.t).

Lemma has_key_Exists fourcc elts :
  has_key fourcc elts = true <-> Exists (fun elt => key elt = fourcc) elts.
Proof.
  rewrite has_key_elem_of, Exists_exists. done.
Qed.

(** The blocks of a run of containers: the record lists of those that
    carry the key, in the order of the containers. *)
Lemma blocks_of_containers fourcc (strms : list Container.t) :
  flat_map (scan_container fourcc) strms
  = Container.value
      <$> filter (fun s => Exists (fun elt => key elt = fourcc) (Container.value s))
                 strms.
Proof.
  induction strms as [|s strms IH]; [done|].
  simpl. rewrite IH, scan_container_spec, filter_cons.
  destruct (has_key fourcc (Container.value s)) eqn:Hk.
  - rewrite decide_True by (by apply has_key_Exists). done.
  - rewrite decide_False; [done|].
    intros HE%has_key_Exists. congruence.
Qed.

(** The generator is a filter: it yields the record lists of exactly
    the containers that carry the key, once each, in stream order. *)
Theorem extract_blocks_is_filter strm fourcc :
  extract_blocks stream filter_klv strm fourcc
  = Container.value
      <$> filter (fun s => Exists (fun elt => key elt = fourcc) (Container.value s))
                 (filter_klv strm "STRM").
Proof. by rewrite extract_blocks_flat_map, blocks_of_containers. Qed.

(** A list of records is yielded exactly when it is the record list of
    a container of the stream and one of its records has the key. *)
Theorem extract_blocks_elem_of strm fourcc block :
  block ∈ extract_blocks stream filter_klv strm fourcc
  <-> exists s, s ∈ filter_klv strm "STRM"
                /\ Container.value s = block
                /\ exists elt, elt ∈ block /\ key elt = fourcc.
Proof.
  rewrite extract_blocks_flat_map, blocks_of_containers, list_elem_of_fmap.
  split.
  - intros (s & -> & Hs). apply list_elem_of_filter in Hs as [HE Hs].
    exists s. split; [done|]. split; [done|]. by apply Exists_exists.
  - intros (s & Hs & <- & HE). exists s. split; [done|].
    apply list_elem_of_filter. split; [|done]. by apply Exists_exists.
Qed.

(** Nothing is yielded exactly when no container of the stream has a
    record with the key: among them the stream without containers and
    the containers without records. *)
Theorem extract_blocks_nil_iff strm fourcc :
  extract_blocks stream filter_klv strm fourcc = []
  <-> forall s elt, s ∈ filter_klv strm "STRM" ->
                    elt ∈ Container.value s -> key elt ≠ fourcc.
Proof.
  rewrite extract_blocks_flat_map, blocks_of_containers. split.
  - intros Hnil s elt Hs Helt Hk.
    assert (Hin : Container.value s
                  ∈ Container.value
                      <$> filter (fun s => Exists (fun elt => key elt = fourcc)
                                                  (Container.value s))
                                 (filter_klv strm "STRM")).
    { apply list_elem_of_fmap. exists s. split; [done|].
      apply list_elem_of_filter. split; [|done].
      apply Exists_exists. eauto. }
    rewrite Hnil in Hin. by apply not_elem_of_nil in Hin.
  - intros Hno.
    destruct (filter _ (filter_klv strm "STRM")) as [|s rest] eqn:Hf; [done|].
    assert (Hs : s ∈ filter (fun s => Exists (fun elt => key elt = fourcc)
                                             (Container.value s))
                            (filter_klv strm "STRM"))
      by (rewrite Hf; left).
    apply list_elem_of_filter in Hs as [HE Hs].
    apply Exists_exists in HE as (elt & Helt & Hk).
    by destruct (Hno s elt Hs Helt).
Qed.

(** The blocks of a stream whose containers are those of a first stream
    followed by those of a second are the blocks of the first followed
    by the blocks of the second: a container is judged on its own
    records only, and nothing is carried from one to the next. *)
Theorem extract_blocks_app strm strm1 strm2 fourcc :
  filter_klv strm "STRM" = filter_klv strm1 "STRM" ++ filter_klv strm2 "STRM" ->
  extract_blocks stream filter_klv strm fourcc
  = extract_blocks stream filter_klv strm1 fourcc
    ++ extract_blocks stream filter_klv strm2 fourcc.
Proof.
  intros Hs. rewrite !extract_blocks_flat_map, Hs. apply flat_map_app.
Qed.

(** Extracting again from the blocks that were yielded, taken as
    containers, yields all of them again. *)
Theorem extract_blocks_again strm fourcc :
  extract_blocks (list Container.t) containers_of
    (Container.mk <$> extract_blocks stream filter_klv strm fourcc) fourcc
  = extract_blocks stream filter_klv strm fourcc.
Proof.
  rewrite (extract_blocks_flat_map containers_of). unfold containers_of.
  rewrite extract_blocks_flat_map.
  induction (filter_klv strm "STRM") as [|s strms IH]; [done|].
  simpl. rewrite fmap_app, flat_map_app, IH. f_equal.
  rewrite scan_container_spec.
  destruct (has_key fourcc (Container.value s)) eqn:Hk; [|done].
  simpl. rewrite scan_container_spec. simpl. by rewrite Hk.
Qed.

(** Selecting by two keys commutes: the blocks yielded for one key that
    hold the other are the blocks yielded for the other that hold the
    one. *)
Theorem extract_blocks_two_keys strm fourcc1 fourcc2 :
  filter (Exists (fun elt => key elt = fourcc2))
         (extract_blocks stream filter_klv strm fourcc1)
  = filter (Exists (fun elt => key elt = fourcc1))
           (extract_blocks stream filter_klv strm fourcc2).
Proof.
  rewrite !extract_blocks_flat_map, !blocks_of_containers.
  induction (filter_klv strm "STRM") as [|s strms IH]; [done|].
  rewrite !(filter_cons _ s).
  destruct (decide (Exists (fun elt => key elt = fourcc1) (Container.value s)))
    as [H1|H1];
    destruct (decide (Exists (fun elt => key elt = fourcc2) (Container.value s)))
    as [H2|H2];
    rewrite ?fmap_cons, ?(filter_cons _ (Container.value s)),
      ?decide_True, ?decide_False by done;
    by rewrite IH.
Qed.

End SegmenterSelection.

(** * Further properties of the decoders *)

(** ** Which record a key resolves to *)

Lemma last_app_cons_shadowed {A} (l1 l2 : list A) a :
  l2 ≠ [] -> last (l1 ++ a :: l2) = last (l1 ++ l2).
Proof.
  intros Hne. rewrite !last_app.
  destruct l2 as [|b l2]; [done|]. done.
Qed.

(** A record does not change what another key resolves to. *)
Lemma block_dict_other_key (pre post : list KLVItem) s k :
  key s ≠ k ->
  block_dict (pre ++ s :: post) !! k = block_dict (pre ++ post) !! k.
Proof.
  intros Hk. rewrite !block_dict_lookup, !filter_app, filter_cons.
  by rewrite decide_False.
Qed.

(** A record followed by one with the same key resolves nothing. *)
Lemma block_dict_shadowed (pre post : list KLVItem) s s' k :
  s' ∈ post -> key s' = key s ->
  block_dict (pre ++ s :: post) !! k = block_dict (pre ++ post) !! k.
Proof.
  intros Hin Hsame. destruct (decide (key s = k)) as [Hk|Hk];
    [|by apply block_dict_other_key].
  rewrite !block_dict_lookup, !filter_app, filter_cons.
  rewrite decide_True by done. apply last_app_cons_shadowed.
  intros Hnil.
  assert (H : s' ∈ filter (fun s => key s = k) post)
    by (apply list_elem_of_filter; split; [congruence|done]).
  rewrite Hnil in H. by apply not_elem_of_nil in H.
Qed.

(** The last record with a key is the one the key resolves to. *)
Lemma block_dict_last (pre post : list KLVItem) s :
  absent (key s) post ->
  block_dict (pre ++ s :: post) !! key s = Some s.
Proof.
  intros Habs. rewrite block_dict_lookup, filter_app, filter_cons.
  rewrite decide_True by done.
  assert (Hpost : filter (fun s0 => key s0 = key s) post = []).
  { destruct (filter _ post) as [|s' rest] eqn:Hf; [done|].
    assert (H : s' ∈ filter (fun s0 => key s0 = key s) post)
      by (rewrite Hf; left).
    apply list_elem_of_filter in H as [Hk Hin]. by destruct (Habs s' Hin). }
  rewrite Hpost. apply last_snoc.
Qed.

(** With pairwise distinct keys, every record is the one its key
    resolves to. *)
Lemma block_dict_distinct_keys (block : list KLVItem) s :
  NoDup (key <$> block) -> s ∈ block -> block_dict block !! key s = Some s.
Proof.
  intros Hnd Hin. apply list_elem_of_split in Hin as (pre & post & ->).
  apply block_dict_last. intros elt Helt Hk.
  rewrite fmap_app, fmap_cons in Hnd.
  apply NoDup_app in Hnd as (_ & _ & Hnd).
  apply NoDup_cons in Hnd as [Hnotin _].
  apply Hnotin. rewrite <- Hk. apply list_elem_of_fmap. eauto.
Qed.

Lemma block_dict_Permutation (block block' : list KLVItem) k :
  NoDup (key <$> block) -> block ≡ₚ block' ->
  block_dict block !! k = block_dict block' !! k.
Proof.
  intros Hnd Hperm.
  assert (Hnd' : NoDup (key <$> block')) by (by rewrite <- Hperm).
  destruct (block_dict block !! k) as [s|] eqn:Hs.
  - apply block_dict_Some in Hs as [Hin <-].
    symmetry. apply block_dict_distinct_keys; [done|]. by rewrite <- Hperm.
  - symmetry. apply block_dict_None. intros elt Hin.
    rewrite block_dict_None in Hs. apply Hs. by rewrite Hperm.
Qed.

(** ** What the numeric steps raise and return *)

Lemma map_results_raises {A C} (P : exn -> Prop) (f : A -> result C) u e :
  (forall a e, f a = Raise e -> P e) -> map_results f u = Raise e -> P e.
Proof.
  intros Hf. induction u as [|a u IH]; simpl; [done|].
  destruct (f a) as [c|e'] eqn:Hfa; simpl; [|intros [= <-]; eauto].
  destruct (map_results f u); simpl; [done|]. intros [= <-]. by apply IH.
Qed.

Lemma zip_results_raises {A B C} (P : exn -> Prop) (f : A -> B -> result C) u v e :
  P ValueError ->
  (forall a b e, f a b = Raise e -> P e) -> zip_results f u v = Raise e -> P e.
Proof.
  intros HV Hf. revert v.
  induction u as [|a u IH]; intros [|b v]; simpl; try done;
    try (by intros [= <-]).
  destruct (f a b) as [c|e'] eqn:Hfab; simpl; [|intros [= <-]; eauto].
  specialize (IH v). destruct (zip_results f u v); simpl; [done|].
  intros [= <-]. by apply IH.
Qed.

Lemma broadcast_raises {A B C} (P : exn -> Prop) (f : A -> B -> result C) u v e :
  P ValueError ->
  (forall a b e, f a b = Raise e -> P e) -> broadcast f u v = Raise e -> P e.
Proof.
  intros HV Hf. unfold broadcast. case_decide.
  - by apply zip_results_raises.
  - destruct u as [|a [|a' u]]; destruct v as [|b [|b' v]];
      try (by intros [= <-]);
      first [ apply (map_results_raises P (f a)); eauto
            | apply (map_results_raises P (fun a => f a b)); eauto ].
Qed.

(** The division raises nothing but numpy's broadcasting error. *)
Lemma true_divide_raises a b e : true_divide a b = Raise e -> e = ValueError.
Proof.
  pose (P := fun e => e = ValueError).
  assert (Hd : forall (x : float) (y : number) e,
             (Ok (div1 x y) : result float) = Raise e -> P e) by done.
  assert (Hb : forall (r : list float) (v : list number) e,
             broadcast (fun x y => Ok (div1 x y)) r v = Raise e -> P e).
  { intros r v e'. by apply broadcast_raises. }
  destruct a as [x|u|m], b as [y|v|n]; simpl; try done.
  - destruct (broadcast _ u v) eqn:Hbr; simpl; [done|].
    intros [= <-]. by apply Hb in Hbr.
  - destruct (map_results _ n) eqn:Hmr; simpl; [done|].
    intros [= <-]. apply (map_results_raises P) in Hmr; [done|]. intros; by eapply Hb.
  - destruct (map_results _ m) eqn:Hmr; simpl; [done|].
    intros [= <-]. apply (map_results_raises P) in Hmr; [done|]. intros; by eapply Hb.
  - destruct (broadcast _ m n) eqn:Hbr; simpl; [done|].
    intros [= <-]. by apply (broadcast_raises P) in Hbr.
Qed.

(** The quotient is a single number only if both operands are, and has
    rows only if one of the operands has. *)
Lemma true_divide_Arr0 a b x :
  true_divide a b = Ok (Arr0 x) -> exists x0 y, a = Arr0 x0 /\ b = Arr0 y.
Proof.
  destruct a as [x0|u|m], b as [y|v|n]; simpl; try done; eauto;
    match goal with |- context [fmap _ ?r] => by destruct r end.
Qed.

Lemma true_divide_Arr2 a b m :
  true_divide a b = Ok (Arr2 m) ->
  (exists m0, a = Arr2 m0) \/ (exists n, b = Arr2 n).
Proof.
  destruct a as [x0|u|m0], b as [y|v|n]; simpl; try done; eauto;
    match goal with |- context [fmap _ ?r] => by destruct r end.
Qed.

Lemma map_results_lookup {A C} (f : A -> result C) u cs i a :
  map_results f u = Ok cs -> u !! i = Some a ->
  exists c, f a = Ok c /\ cs !! i = Some c.
Proof.
  revert cs i. induction u as [|a0 u IH]; intros cs i; simpl; [done|].
  destruct (f a0) as [c0|] eqn:Hf0; simpl; [|done].
  destruct (map_results f u) as [cs'|] eqn:Hm; simpl; [|done].
  intros [= <-]. destruct i as [|i]; simpl.
  - intros [= <-]. eauto.
  - by apply IH.
Qed.

Lemma lookup_map {A B} (f : A -> B) (l : list A) i a :
  l !! i = Some a -> map f l !! i = Some (f a).
Proof.
  revert i. induction l as [|a0 l IH]; intros [|i]; simpl; try done.
  - by intros [= <-].
  - apply IH.
Qed.

Lemma map_results_is_ok {A C} (f : A -> result C) u :
  is_ok (map_results f u) = true <-> Forall (fun a => is_ok (f a) = true) u.
Proof.
  induction u as [|a u IH]; simpl; [by split; [constructor|]|].
  rewrite Forall_cons, <- IH.
  destruct (f a); simpl; [|by intuition].
  destruct (map_results f u); simpl; by intuition.
Qed.

(** ** Outcomes *)

Section DecoderOutcomes.

Variable as_euler_zyx : float -> float -> float -> float -> option euler.

Lemma lookup_None_absent (block : list KLVItem) k :
  block_dict block !! k = None -> absent k block.
Proof. intros H. exact (proj1 (block_dict_None block k) H). Qed.

Lemma decoders_elem_of block channel outcome :
  (channel, outcome) ∈ decoders as_euler_zyx block
  <-> (channel = "IORI" \/ channel = "CORI")
      /\ outcome = decode as_euler_zyx channel block.
Proof.
  split.
  - intros Hin. split; [|by apply decoders_decode].
    unfold decoders in Hin.
    apply elem_of_cons in Hin as [[= -> _]|Hin]; [by left|].
    apply elem_of_cons in Hin as [[= -> _]|Hin]; [by right|].
    by apply not_elem_of_nil in Hin.
  - intros [[-> | ->] ->]; unfold decoders.
    + rewrite parse_iori_block_decode. apply list_elem_of_here.
    + rewrite parse_cori_block_decode.
      apply list_elem_of_further, list_elem_of_here.
Qed.

(** A [KeyError] comes from one of the three lookups, and from a key
    that no record carries. *)
Lemma decode_KeyError channel block k :
  decode as_euler_zyx channel block = Raise (KeyError k) ->
  k ∈ [channel; "SCAL"; "STMP"] /\ absent k block.
Proof.
  unfold decode, getitem.
  destruct (block_dict block !! channel) as [quat|] eqn:Hq; simpl.
  2:{ intros [= <-]. split; [apply list_elem_of_here|by apply lookup_None_absent]. }
  pose proof (times_one_numeric (value quat)) as Hn1.
  destruct (times_one (value quat)) as [product|e1]; simpl;
    [|intros [= ->]; done].
  destruct (block_dict block !! "SCAL") as [scal|] eqn:Hs; simpl.
  2:{ intros [= <-]. split; [|by apply lookup_None_absent].
      apply list_elem_of_further, list_elem_of_here. }
  pose proof (divided_by_numeric product (value scal)) as Hn2.
  destruct (divided_by product (value scal)) as [data|e2]; simpl;
    [|intros [= ->]; done].
  pose proof (euler_angles_numeric as_euler_zyx data) as Hn3.
  destruct (euler_angles as_euler_zyx data) as [angles|e3]; simpl;
    [|intros [= ->]; done].
  destruct angles as [|e angles]; simpl; [done|].
  destruct (block_dict block !! "STMP") as [stmp|] eqn:Hst; simpl; [done|].
  intros [= <-]. split; [|by apply lookup_None_absent].
  do 2 apply list_elem_of_further. apply list_elem_of_here.
Qed.

Lemma quat_to_euler_is_ok q :
  is_ok (quat_to_euler as_euler_zyx q) = true
  <-> exists qx qy qz qw,
        q = [qx; qy; qz; qw] /\ is_Some (as_euler_zyx qx qy qz qw).
Proof.
  unfold quat_to_euler. split.
  - destruct q as [|qx [|qy [|qz [|qw [|]]]]]; try done.
    destruct (as_euler_zyx qx qy qz qw) eqn:He; [|done].
    intros _. exists qx, qy, qz, qw. rewrite He. eauto.
  - intros (qx & qy & qz & qw & -> & [e He]). by rewrite He.
Qed.

(** When a decoder raises [KeyError], the key is one of the three it
    looks up, and no record of the block carries it. *)
Theorem key_error_names_absent_key block channel k :
  (channel, Raise (KeyError k)) ∈ decoders as_euler_zyx block ->
  k ∈ [channel; "SCAL"; "STMP"] /\ absent k block.
Proof.
  intros Hin%decoders_decode. symmetry in Hin. by apply decode_KeyError.
Qed.

(** The samples of a result are aligned with the rows of the rescaled
    quaternion array: row [i] has four components, and [z], [y], [x] at
    index [i] are the three angles scipy returns for it, in that
    order. *)
Theorem samples_follow_rows block channel r :
  (channel, Ok r) ∈ decoders as_euler_zyx block ->
  exists m,
    quaternion_data channel block = Ok (Arr2 m)
    /\ forall i q, m !! i = Some q ->
         exists qx qy qz qw ez ey ex,
           q = [qx; qy; qz; qw]
           /\ as_euler_zyx qx qy qz qw = Some (ez, ey, ex)
           /\ z r !! i = Some ez /\ y r !! i = Some ey /\ x r !! i = Some ex.
Proof.
  intros Hin%decoders_decode. symmetry in Hin.
  apply decode_Ok in Hin as (data & angles & stmp & Hdata & Hang & Hne & _ & ->).
  destruct (euler_angles_Ok _ _ _ Hang Hne) as (m & -> & _).
  exists m. split; [done|]. intros i q Hq. simpl in Hang.
  destruct (map_results_lookup _ _ _ _ _ Hang Hq) as ([[ez ey] ex] & Hconv & Hi).
  unfold quat_to_euler in Hconv.
  destruct q as [|qx [|qy [|qz [|qw [|]]]]]; try done.
  destruct (as_euler_zyx qx qy qz qw) as [e|] eqn:He; [|done].
  injection Hconv as ->.
  exists qx, qy, qz, qw, ez, ey, ex. simpl.
  by rewrite !(lookup_map _ _ _ _ Hi).
Qed.

(** A decoder returns a result exactly when the block has a [STMP]
    record, the rescale gives a 2-D array with at least one row, and
    every row has four components that scipy accepts. *)
Theorem decode_succeeds_iff block channel outcome :
  (channel, outcome) ∈ decoders as_euler_zyx block ->
  is_ok outcome = true
  <-> is_Some (block_dict block !! "STMP")
      /\ exists m,
           quaternion_data channel block = Ok (Arr2 m)
           /\ m ≠ []
           /\ Forall (fun q => exists qx qy qz qw,
                         q = [qx; qy; qz; qw]
                         /\ is_Some (as_euler_zyx qx qy qz qw)) m.
Proof.
  intros Hin%decoders_decode. subst outcome. split.
  - destruct (decode as_euler_zyx channel block) as [r|] eqn:Hdec; [|done].
    intros _.
    apply decode_Ok in Hdec as (data & angles & stmp & Hdata & Hang & Hne & Hst & _).
    split; [by exists stmp|].
    destruct (euler_angles_Ok _ _ _ Hang Hne) as (m & -> & Hlen).
    exists m. split; [done|]. split.
    + intros ->. by destruct angles.
    + simpl in Hang.
      assert (Hok : is_ok (map_results (quat_to_euler as_euler_zyx) m) = true)
        by (by rewrite Hang).
      apply map_results_is_ok in Hok.
      eapply Forall_impl; [exact Hok|]. intros q. apply quat_to_euler_is_ok.
  - intros ([stmp Hst] & m & Hdata & Hne & Hrows).
    rewrite decode_stages, Hdata. simpl. unfold sample_set_of_data. simpl.
    assert (Hok : is_ok (map_results (quat_to_euler as_euler_zyx) m) = true).
    { apply map_results_is_ok. eapply Forall_impl; [exact Hrows|].
      intros q. apply quat_to_euler_is_ok. }
    destruct (map_results (quat_to_euler as_euler_zyx) m) as [angles|] eqn:Hang;
      [|done].
    simpl. apply map_results_length in Hang.
    destruct angles as [|e angles]; [by destruct m|]. simpl.
    unfold getitem. by rewrite Hst.
Qed.

(** With a single scale value, a result has one sample for every
    quaternion of the record, and every quaternion of the record has
    four components. *)
Theorem one_sample_per_quaternion block channel r quat a scal s :
  (channel, Ok r) ∈ decoders as_euler_zyx block ->
  block_dict block !! channel = Some quat -> value quat = PNum a ->
  block_dict block !! "SCAL" = Some scal -> value scal = PNum (Arr0 s) ->
  exists m, a = Arr2 m
            /\ length (z r) = length m
            /\ length (y r) = length m
            /\ length (x r) = length m
            /\ Forall (fun q => length q = 4%nat) m.
Proof.
  intros Hin%decoders_decode Hq Ha Hs Hscal. symmetry in Hin.
  apply decode_Ok in Hin as (data & angles & stmp & Hdata & Hang & Hne & _ & ->).
  rewrite (quaternion_data_scalar _ _ _ _ _ _ Hq Ha Hs Hscal) in Hdata.
  injection Hdata as <-.
  destruct (euler_angles_Ok _ _ _ Hang Hne) as (m' & Hm' & Hlen).
  destruct a as [x0|v|m]; try done. simpl in Hm'. injection Hm' as <-.
  exists m. simpl. rewrite length_map in Hlen. rewrite !length_map.
  do 4 (split; [done|]).
  simpl in Hang.
  assert (Hok : is_ok (map_results (quat_to_euler as_euler_zyx)
                         (map (map (fun raw => (to_float raw * 1 / to_float s)%float)) m))
                = true) by (by rewrite Hang).
  apply map_results_is_ok, Forall_map in Hok.
  eapply Forall_impl; [exact Hok|]. intros q Hqok. simpl in Hqok.
  apply quat_to_euler_is_ok in Hqok as (qx & qy & qz & qw & Hshape & _).
  apply (f_equal length) in Hshape. by rewrite length_map in Hshape.
Qed.

End DecoderOutcomes.

(** ** Records that do not count, and records that do *)

Section DecoderRecords.

Variable as_euler_zyx : float -> float -> float -> float -> option euler.

(** Two blocks that resolve every key alike have the same outcomes. *)
Lemma decoders_same_dict block1 block2 channel outcome :
  (forall k, block_dict block1 !! k = block_dict block2 !! k) ->
  (channel, outcome) ∈ decoders as_euler_zyx block1
  <-> (channel, outcome) ∈ decoders as_euler_zyx block2.
Proof.
  intros Hsame. rewrite !decoders_elem_of.
  assert (Hdec : decode as_euler_zyx channel block1
                 = decode as_euler_zyx channel block2).
  { apply decode_same_records. intros k _. apply Hsame. }
  by rewrite Hdec.
Qed.

(** The outcome of a decoder is fixed by the three records the block
    resolves the required keys to: two blocks that resolve the
    quaternion key, [SCAL] and [STMP] alike have the same outcome,
    whatever else they hold. *)
Theorem outcome_depends_on_three_records block block' channel outcome :
  same_records [channel; "SCAL"; "STMP"] block block' ->
  (channel, outcome) ∈ decoders as_euler_zyx block
  <-> (channel, outcome) ∈ decoders as_euler_zyx block'.
Proof.
  intros Hsame. rewrite !decoders_elem_of.
  by rewrite (decode_same_records _ _ _ _ Hsame).
Qed.

(** A record whose key is none of the three the decoder looks up can be
    dropped from the block, or added to it, without any effect on the
    outcome. *)
Theorem unrelated_record_ignored pre s post channel outcome :
  key s ∉ [channel; "SCAL"; "STMP"] ->
  (channel, outcome) ∈ decoders as_euler_zyx (pre ++ s :: post)
  <-> (channel, outcome) ∈ decoders as_euler_zyx (pre ++ post).
Proof.
  intros Hkey. rewrite !decoders_elem_of.
  assert (Hdec : decode as_euler_zyx channel (pre ++ s :: post)
                 = decode as_euler_zyx channel (pre ++ post)).
  { apply decode_same_records. intros k Hk. apply block_dict_other_key.
    intros <-. done. }
  by rewrite Hdec.
Qed.

(** The last record with a key wins: a record that is followed by
    another one with the same key has no effect on the outcome. *)
Theorem shadowed_record_ignored pre s post s' channel outcome :
  s' ∈ post -> key s' = key s ->
  (channel, outcome) ∈ decoders as_euler_zyx (pre ++ s :: post)
  <-> (channel, outcome) ∈ decoders as_euler_zyx (pre ++ post).
Proof.
  intros Hin Hkey. apply decoders_same_dict. intros k.
  by eapply block_dict_shadowed.
Qed.

(** When no two records of a block have the same key, the order of the
    records has no effect on the outcome. *)
Theorem record_order_irrelevant block block' channel outcome :
  NoDup (key <$> block) -> block ≡ₚ block' ->
  (channel, outcome) ∈ decoders as_euler_zyx block
  <-> (channel, outcome) ∈ decoders as_euler_zyx block'.
Proof.
  intros Hnd Hperm. apply decoders_same_dict. intros k.
  by apply block_dict_Permutation.
Qed.

(** The payload of [STMP] is handed over without being read: with any
    other payload in the last [STMP] record the decoder succeeds as
    well, with the same angles, and [cts] is that payload. *)
Theorem stmp_payload_unread pre post p p' channel r :
  absent "STMP" post ->
  (channel, Ok r) ∈ decoders as_euler_zyx (pre ++ mkKLVItem "STMP" p :: post) ->
  cts r = p
  /\ (channel, Ok (mkSampleSet p' (z r) (y r) (x r)))
     ∈ decoders as_euler_zyx (pre ++ mkKLVItem "STMP" p' :: post).
Proof.
  intros Habs Hin. apply decoders_elem_of in Hin as [Hchan Hdec].
  rewrite decoders_elem_of. symmetry in Hdec.
  assert (Hne : "STMP" ≠ channel) by (by destruct Hchan as [-> | ->]).
  assert (Hdata : quaternion_data channel (pre ++ mkKLVItem "STMP" p' :: post)
                  = quaternion_data channel (pre ++ mkKLVItem "STMP" p :: post)).
  { unfold quaternion_data, getitem.
    by rewrite !(block_dict_other_key pre post _ channel),
         !(block_dict_other_key pre post _ "SCAL"). }
  pose proof (block_dict_last pre post (mkKLVItem "STMP" p) Habs) as Hp.
  pose proof (block_dict_last pre post (mkKLVItem "STMP" p') Habs) as Hp'.
  simpl in Hp, Hp'.
  rewrite decode_stages in Hdec. rewrite decode_stages, Hdata.
  destruct (quaternion_data channel _) as [data|]; [simpl in *|done].
  unfold sample_set_of_data, getitem in *. rewrite Hp in Hdec. rewrite Hp'.
  destruct (euler_angles as_euler_zyx data) as [angles|]; [simpl in *|done].
  destruct (unpack_T angles) as [columns|]; [simpl in *|done].
  injection Hdec as <-. simpl. done.
Qed.

(** On a block that both decoders succeed on, the two results have the
    same [cts]. *)
Theorem both_decoders_share_cts block ri rc :
  parse_iori_block as_euler_zyx block = Ok ri ->
  parse_cori_block as_euler_zyx block = Ok rc ->
  IoriData.cts ri = CoriData.cts rc.
Proof.
  intros Hi Hc.
  pose proof (parse_iori_block_decode as_euler_zyx block) as Hdi.
  pose proof (parse_cori_block_decode as_euler_zyx block) as Hdc.
  rewrite Hi in Hdi. rewrite Hc in Hdc. simpl in Hdi, Hdc.
  symmetry in Hdi, Hdc.
  apply decode_Ok in Hdi as (d1 & a1 & stmp & _ & _ & _ & Hst & Hri).
  apply decode_Ok in Hdc as (d2 & a2 & stmp' & _ & _ & _ & Hst' & Hrc).
  unfold iori_fields in Hri. unfold cori_fields in Hrc.
  injection Hri as Hri _ _ _. injection Hrc as Hrc _ _ _. congruence.
Qed.

(** A decoder raises [TypeError] in exactly these cases: the payload of
    the quaternion record is not numeric; or it is, and the payload of
    [SCAL] is not; or both payloads are single numbers. *)
Theorem type_error_iff block channel outcome :
  (channel, outcome) ∈ decoders as_euler_zyx block ->
  outcome = Raise TypeError
  <-> exists quat,
        block_dict block !! channel = Some quat
        /\ ((exists t, value quat = PText t)
            \/ exists a scal,
                 value quat = PNum a
                 /\ block_dict block !! "SCAL" = Some scal
                 /\ ((exists t, value scal = PText t)
                     \/ exists x0 y0, a = Arr0 x0 /\ value scal = PNum (Arr0 y0))).
Proof.
  intros Hin%decoders_decode. subst outcome. unfold decode, getitem. split.
  - destruct (block_dict block !! channel) as [quat|]; [simpl|done].
    intros H. exists quat. split; [done|].
    destruct (value quat) as [a|t]; [simpl in H|by left; eauto].
    right. exists a.
    destruct (block_dict block !! "SCAL") as [scal|]; [simpl in H|done].
    exists scal. do 2 (split; [done|]).
    destruct (value scal) as [b|t]; [simpl in H|by left; eauto].
    right.
    destruct (true_divide (mul_one a) b) as [data|e] eqn:Hdiv; simpl in H.
    2:{ apply true_divide_raises in Hdiv. congruence. }
    destruct data as [d|v|m]; simpl in H.
    + apply true_divide_Arr0 in Hdiv as (x0 & y0 & Ha & ->).
      destruct a; try done. eauto.
    + exfalso.
      destruct (map_results (fun _ : float => Raise ValueError) v)
        as [angles|e] eqn:Hm; simpl in H.
      * destruct v; [|done]. simpl in Hm. injection Hm as <-. done.
      * apply (map_results_raises (fun e => e = ValueError)) in Hm;
          [congruence|]. by intros _ e' [= <-].
    + exfalso.
      destruct (map_results (quat_to_euler as_euler_zyx) m)
        as [angles|e] eqn:Hm; simpl in H.
      * destruct angles; [done|]. simpl in H.
        by destruct (block_dict block !! "STMP").
      * apply (map_results_raises (fun e => e = ValueError)) in Hm;
          [congruence|].
        intros q e'. unfold quat_to_euler.
        destruct q as [|qx [|qy [|qz [|qw [|]]]]]; try (by intros [= <-]).
        destruct (as_euler_zyx qx qy qz qw); [done|by intros [= <-]].
  - intros (quat & -> & [[t Ht]|(a & scal & Ha & -> & Hcase)]); simpl.
    + by rewrite Ht.
    + rewrite Ha. simpl. destruct Hcase as [[t ->]|(x0 & y0 & -> & ->)]; done.
Qed.

(** A result needs rows: when neither the payload of the quaternion
    record nor that of [SCAL] is a 2-D array, the decoder fails. So a
    single quaternion held as a flat vector of four numbers is not
    decoded when [SCAL] holds a single value or a vector. *)
Theorem flat_payloads_fail block channel outcome quat a scal b :
  (channel, outcome) ∈ decoders as_euler_zyx block ->
  block_dict block !! channel = Some quat -> value quat = PNum a ->
  block_dict block !! "SCAL" = Some scal -> value scal = PNum b ->
  (forall m, a ≠ Arr2 m) -> (forall n, b ≠ Arr2 n) ->
  is_ok outcome = false.
Proof.
  intros Hin%decoders_decode Hq Ha Hs Hb Hflat_a Hflat_b. subst outcome.
  destruct (decode as_euler_zyx channel block) as [r|] eqn:Hdec; [|done].
  exfalso.
  apply decode_Ok in Hdec as (data & angles & stmp & Hdata & Hang & Hne & _).
  destruct (euler_angles_Ok _ _ _ Hang Hne) as (m & -> & _).
  unfold quaternion_data, getitem in Hdata.
  rewrite Hq in Hdata. simpl in Hdata. rewrite Ha in Hdata. simpl in Hdata.
  rewrite Hs in Hdata. simpl in Hdata. rewrite Hb in Hdata. simpl in Hdata.
  apply true_divide_Arr2 in Hdata as [[m0 Hm0]|[n Hn]].
  - destruct a as [x0|v|m1]; try done. by destruct (Hflat_a m1).
  - by destruct (Hflat_b n).
Qed.

End DecoderRecords.

(** ** From extract_blocks to the decoders *)

Section ExtractThenDecode.

Context {stream : Type} (filter_klv : stream -> string -> list Container.t).
Variable as_euler_zyx : float -> float -> float -> float -> option euler.

(** A block that [extract_blocks] yielded for the key of a decoder holds
    the quaternion record of that decoder: it never makes the decoder
    raise [KeyError] for that key. *)
Theorem extracted_block_has_channel strm channel block outcome :
  block ∈ extract_blocks stream filter_klv strm channel ->
  (channel, outcome) ∈ decoders as_euler_zyx block ->
  is_Some (block_dict block !! channel)
  /\ outcome ≠ Raise (KeyError channel).
Proof.
  intros Hblock Hin%decoders_decode. subst outcome.
  rewrite extract_blocks_flat_map, blocks_of_containers in Hblock.
  apply list_elem_of_fmap in Hblock as (s & -> & Hs).
  apply list_elem_of_filter in Hs as [HE _].
  apply Exists_exists in HE as (elt & Helt & Hk).
  assert (Hsome : is_Some (block_dict (Container.value s) !! channel)).
  { destruct (block_dict (Container.value s) !! channel) eqn:Hd; [eauto|].
    apply lookup_None_absent in Hd. by destruct (Hd elt Helt). }
  split; [done|]. intros Herr.
  apply decode_KeyError in Herr as [_ Habs]. by destruct (Habs elt Helt).
Qed.

End ExtractThenDecode.

(** ** A vector of scales *)

Lemma zip_results_total {A B C} (g : A -> B -> C) (u : list A) (v : list B) :
  length u = length v ->
  zip_results (fun a b => Ok (g a b)) u v = Ok (zip_with g u v).
Proof.
  revert v. induction u as [|a u IH]; intros [|b v]; simpl; try done.
  intros [= Hlen]. by rewrite (IH v Hlen).
Qed.

Lemma zip_with_map_l {A A' B C} (g : A' -> B -> C) (h : A -> A')
    (u : list A) (v : list B) :
  zip_with g (map h u) v = zip_with (fun a b => g (h a) b) u v.
Proof.
  revert v. induction u as [|a u IH]; intros [|b v]; simpl; try done.
  by rewrite IH.
Qed.

Lemma map_results_rows {A C} (f g : A -> result C) (u : list A) :
  Forall (fun a => f a = g a) u -> map_results f u = map_results g u.
Proof.
  induction 1 as [|a u Ha _ IH]; simpl; [done|]. by rewrite Ha, IH.
Qed.

Lemma map_results_total {A C} (g : A -> C) (u : list A) :
  map_results (fun a => Ok (g a)) u = Ok (map g u).
Proof. induction u as [|a u IH]; simpl; [done|]. by rewrite IH. Qed.

Section DecoderScaleVector.

Variable as_euler_zyx : float -> float -> float -> float -> option euler.

(** The rescale, when [SCAL] holds as many values as a quaternion has
    components. *)
Lemma quaternion_data_vector block channel quat m scal v :
  block_dict block !! channel = Some quat -> value quat = PNum (Arr2 m) ->
  block_dict block !! "SCAL" = Some scal -> value scal = PNum (Arr1 v) ->
  Forall (fun row => length row = length v) m ->
  quaternion_data channel block
  = Ok (Arr2 (map (fun row =>
                     zip_with (fun raw s => (to_float raw * 1 / to_float s)%float)
                              row v) m)).
Proof.
  intros Hq Ha Hs Hscal Hrows. unfold quaternion_data, getitem.
  rewrite Hq. simpl. rewrite Ha. simpl. rewrite Hs. simpl. rewrite Hscal. simpl.
  rewrite (map_results_rows _
             (fun r => Ok (zip_with div1 r v))).
  - rewrite map_results_total. simpl. rewrite map_map. do 2 f_equal.
    apply map_ext. intros row. apply zip_with_map_l.
  - apply Forall_map. eapply Forall_impl; [exact Hrows|].
    intros row Hlen. simpl. unfold broadcast.
    rewrite decide_True by (by rewrite length_map).
    apply zip_results_total. by rewrite length_map.
Qed.

(** A [SCAL] record with one value for each component scales component
    by component: component [j] of every sample is divided by value [j]
    of [SCAL]. *)
Theorem scale_vector_componentwise block channel outcome quat m scal v :
  (channel, outcome) ∈ decoders as_euler_zyx block ->
  block_dict block !! channel = Some quat -> value quat = PNum (Arr2 m) ->
  block_dict block !! "SCAL" = Some scal -> value scal = PNum (Arr1 v) ->
  Forall (fun row => length row = length v) m ->
  let data :=
    map (fun row =>
           zip_with (fun raw s => (to_float raw * 1 / to_float s)%float) row v) m in
  quaternion_data channel block = Ok (Arr2 data)
  /\ outcome = sample_set_of_data as_euler_zyx block (Arr2 data).
Proof.
  intros Hin%decoders_decode Hq Ha Hs Hscal Hrows data. subst outcome.
  assert (Hdata := quaternion_data_vector _ _ _ _ _ _ Hq Ha Hs Hscal Hrows).
  split; [done|]. by rewrite decode_stages, Hdata.
Qed.

(** A [SCAL] record whose number of values is neither one nor four
    cannot be applied to quaternions of four components: the decoder
    raises [ValueError]. *)
Theorem missized_scale_vector_fails block channel outcome quat m scal v :
  (channel, outcome) ∈ decoders as_euler_zyx block ->
  block_dict block !! channel = Some quat -> value quat = PNum (Arr2 m) ->
  block_dict block !! "SCAL" = Some scal -> value scal = PNum (Arr1 v) ->
  m ≠ [] -> Forall (fun row => length row = 4%nat) m ->
  length v ≠ 1%nat -> length v ≠ 4%nat ->
  outcome = Raise ValueError.
Proof.
  intros Hin%decoders_decode Hq Ha Hs Hscal Hne Hrows Hv1 Hv4. subst outcome.
  unfold decode, getitem.
  rewrite Hq. simpl. rewrite Ha. simpl. rewrite Hs. simpl. rewrite Hscal. simpl.
  destruct m as [|row m]; [done|]. simpl.
  apply Forall_cons in Hrows as [Hrow _].
  assert (Hbr : broadcast (fun x y => Ok (div1 x y))
                  (map (fun x => (to_float x * 1)%float) row) v
                = Raise ValueError).
  { unfold broadcast. rewrite decide_False by (rewrite length_map; lia).
    destruct row as [|r1 [|r2 [|r3 [|r4 [|]]]]]; try done. simpl.
    by destruct v as [|s1 [|s2 v]]. }
  by rewrite Hbr.
Qed.

End DecoderScaleVector.

(** ** What is asked of scipy *)

(** The decoders call the conversion on the rows of the rescaled array
    and on nothing else: two conversions that agree on those rows give
    the same outcome. *)
Theorem conversion_applied_to_rows_only
    (as_euler1 as_euler2 : float -> float -> float -> float -> option euler)
    block channel outcome :
  (forall m qx qy qz qw,
     quaternion_data channel block = Ok (Arr2 m) ->
     [qx; qy; qz; qw] ∈ m ->
     as_euler1 qx qy qz qw = as_euler2 qx qy qz qw) ->
  (channel, outcome) ∈ decoders as_euler1 block
  <-> (channel, outcome) ∈ decoders as_euler2 block.
Proof.
  intros Hagree. rewrite !decoders_elem_of.
  assert (Hdec : decode as_euler1 channel block = decode as_euler2 channel block).
  { rewrite !decode_stages.
    destruct (quaternion_data channel block) as [data|] eqn:Hdata; [simpl|done].
    unfold sample_set_of_data.
    assert (Hang : euler_angles as_euler1 data = euler_angles as_euler2 data).
    { destruct data as [d|v|m]; simpl; [done..|].
      apply map_results_rows, Forall_forall. intros q Hq.
      unfold quat_to_euler.
      destruct q as [|qx [|qy [|qz [|qw [|]]]]]; try done.
      by rewrite (Hagree m qx qy qz qw eq_refl Hq). }
    by rewrite Hang. }
  by rewrite Hdec.
Qed.

(** * The further properties on the sample blocks *)

Lemma extract_blocks_app_witness :
  extract_blocks (list Container.t) containers_of
    [container_once; container_without; container_twice] "CORI"
  = extract_blocks (list Container.t) containers_of [container_once] "CORI"
    ++ extract_blocks (list Container.t) containers_of
         [container_without; container_twice] "CORI".
Proof.
  apply (extract_blocks_app containers_of
           [container_once; container_without; container_twice]
           [container_once] [container_without; container_twice] "CORI").
  reflexivity.
Defined.

Lemma key_error_names_absent_key_witness :
  "SCAL" ∈ ["CORI"; "SCAL"; "STMP"] /\ absent "SCAL" (block_no_scal "CORI").
Proof.
  apply (key_error_names_absent_key euler_of_identity
           (block_no_scal "CORI") "CORI" "SCAL").
  vm_compute. apply list_elem_of_further, list_elem_of_here.
Defined.

Lemma samples_follow_rows_witness :
  exists m,
    quaternion_data "IORI" (block_two_samples "IORI") = Ok (Arr2 m)
    /\ forall i q, m !! i = Some q ->
         exists qx qy qz qw ez ey ex,
           q = [qx; qy; qz; qw]
           /\ euler_of_identity qx qy qz qw = Some (ez, ey, ex)
           /\ z two_samples_decoded !! i = Some ez
           /\ y two_samples_decoded !! i = Some ey
           /\ x two_samples_decoded !! i = Some ex.
Proof.
  apply (samples_follow_rows euler_of_identity
           (block_two_samples "IORI") "IORI" two_samples_decoded).
  vm_compute. apply list_elem_of_here.
Defined.

Lemma decode_succeeds_iff_witness :
  is_Some (block_dict (block_two_samples "CORI") !! "STMP")
  /\ exists m,
       quaternion_data "CORI" (block_two_samples "CORI") = Ok (Arr2 m)
       /\ m ≠ []
       /\ Forall (fun q => exists qx qy qz qw,
                     q = [qx; qy; qz; qw]
                     /\ is_Some (euler_of_identity qx qy qz qw)) m.
Proof.
  apply (decode_succeeds_iff euler_of_identity
           (block_two_samples "CORI") "CORI" (Ok two_samples_decoded));
    [vm_compute; apply list_elem_of_further, list_elem_of_here | reflexivity].
Defined.

Lemma one_sample_per_quaternion_witness :
  exists m, Arr2 [identity_quat 32767; identity_quat 32767] = Arr2 m
            /\ length (z two_samples_decoded) = length m
            /\ length (y two_samples_decoded) = length m
            /\ length (x two_samples_decoded) = length m
            /\ Forall (fun q => length q = 4%nat) m.
Proof.
  apply (one_sample_per_quaternion euler_of_identity
           (block_two_samples "IORI") "IORI" two_samples_decoded
           (quat_record "IORI") _ scal_record (NInt 32767));
    [vm_compute; apply list_elem_of_here
    | vm_compute; reflexivity | reflexivity
    | vm_compute; reflexivity | reflexivity].
Defined.

Lemma unrelated_record_ignored_witness :
  (key stnm_record ∉ ["IORI"; "SCAL"; "STMP"])
  /\ ("IORI", Ok two_samples_decoded)
     ∈ decoders euler_of_identity [stmp_record; scal_record; quat_record "IORI"].
Proof.
  split; [not_among|].
  apply (unrelated_record_ignored euler_of_identity
           [stmp_record] stnm_record [scal_record; quat_record "IORI"]
           "IORI" (Ok two_samples_decoded));
    [not_among | vm_compute; apply list_elem_of_here].
Defined.

Lemma shadowed_record_ignored_witness :
  ("IORI", Ok two_samples_decoded)
  ∈ decoders euler_of_identity
      (mkKLVItem "SCAL" (PNum (Arr0 (NInt 1))) :: block_two_samples "IORI").
Proof.
  apply (shadowed_record_ignored euler_of_identity
           [] (mkKLVItem "SCAL" (PNum (Arr0 (NInt 1))))
           (block_two_samples "IORI") scal_record
           "IORI" (Ok two_samples_decoded));
    [ do 2 apply list_elem_of_further; apply list_elem_of_here
    | reflexivity
    | vm_compute; apply list_elem_of_here ].
Defined.

Lemma record_order_irrelevant_witness :
  NoDup (key <$> block_two_samples "IORI")
  /\ ("IORI", Ok two_samples_decoded)
     ∈ decoders euler_of_identity (reverse (block_two_samples "IORI")).
Proof.
  assert (Hnd : NoDup (key <$> block_two_samples "IORI")).
  { vm_compute. repeat (apply NoDup_cons; split; [not_among|]). apply NoDup_nil_2. }
  split; [exact Hnd|].
  apply (record_order_irrelevant euler_of_identity
           (block_two_samples "IORI") (reverse (block_two_samples "IORI"))
           "IORI" (Ok two_samples_decoded));
    [ exact Hnd
    | symmetry; apply reverse_Permutation
    | vm_compute; apply list_elem_of_here ].
Defined.

Lemma stmp_payload_unread_witness :
  cts two_samples_decoded = PNum (Arr1 [NInt 1000; NInt 2000])
  /\ ("IORI", Ok (mkSampleSet (PText "none") (z two_samples_decoded)
                    (y two_samples_decoded) (x two_samples_decoded)))
     ∈ decoders euler_of_identity
         ([] ++ mkKLVItem "STMP" (PText "none")
                :: [stnm_record; scal_record; quat_record "IORI"]).
Proof.
  apply (stmp_payload_unread euler_of_identity
           [] [stnm_record; scal_record; quat_record "IORI"]
           (PNum (Arr1 [NInt 1000; NInt 2000])) (PText "none")
           "IORI" two_samples_decoded);
    [absent_by_cases | vm_compute; apply list_elem_of_here].
Defined.

Lemma both_decoders_share_cts_witness :
  IoriData.cts
    (IoriData.mk (PNum (Arr1 [NInt 1000; NInt 2000]))
       [0; 0]%float [0; 0]%float [0; 0]%float)
  = CoriData.cts
      (CoriData.mk (PNum (Arr1 [NInt 1000; NInt 2000]))
         [0; 0]%float [0; 0]%float [0; 0]%float).
Proof.
  apply (both_decoders_share_cts euler_of_identity block_both_channels);
    vm_compute; reflexivity.
Defined.

Lemma type_error_iff_witness :
  iori_fields <$> parse_iori_block euler_of_identity block_text_quaternion
  = Raise TypeError.
Proof.
  apply (type_error_iff euler_of_identity block_text_quaternion "IORI");
    [apply list_elem_of_here|].
  exists (mkKLVItem "IORI" (PText "0,0,0,1")).
  split; [vm_compute; reflexivity|]. left. by eexists.
Defined.

Lemma flat_payloads_fail_witness :
  is_ok (iori_fields <$> parse_iori_block euler_of_identity block_flat_quaternion)
  = false.
Proof.
  apply (flat_payloads_fail euler_of_identity block_flat_quaternion "IORI" _
           (mkKLVItem "IORI" (PNum (Arr1 (identity_quat 32767))))
           (Arr1 (identity_quat 32767)) scal_record (Arr0 (NInt 32767)));
    [ apply list_elem_of_here
    | vm_compute; reflexivity | reflexivity
    | vm_compute; reflexivity | reflexivity
    | done | done ].
Defined.

Lemma extracted_block_has_channel_witness :
  is_Some (block_dict (block_two_samples "CORI") !! "CORI")
  /\ Ok two_samples_decoded ≠ Raise (KeyError "CORI").
Proof.
  apply (extracted_block_has_channel containers_of euler_of_identity
           [container_without; container_once] "CORI"
           (block_two_samples "CORI") (Ok two_samples_decoded));
    [ vm_compute; apply list_elem_of_here
    | vm_compute; apply list_elem_of_further, list_elem_of_here ].
Defined.

Lemma scale_vector_componentwise_witness :
  quaternion_data "IORI"
    [ stmp_record;
      mkKLVItem "SCAL" (PNum (Arr1 [NInt 1; NInt 2; NInt 4; NInt 8]));
      mkKLVItem "IORI" (PNum (Arr2 [[NInt 1; NInt 1; NInt 1; NInt 1]])) ]
  = Ok (Arr2 [[1; 0.5; 0.25; 0.125]]%float).
Proof.
  apply (scale_vector_componentwise euler_of_identity
           [ stmp_record;
             mkKLVItem "SCAL" (PNum (Arr1 [NInt 1; NInt 2; NInt 4; NInt 8]));
             mkKLVItem "IORI" (PNum (Arr2 [[NInt 1; NInt 1; NInt 1; NInt 1]])) ]
           "IORI" (Raise ValueError)
           (mkKLVItem "IORI" (PNum (Arr2 [[NInt 1; NInt 1; NInt 1; NInt 1]])))
           [[NInt 1; NInt 1; NInt 1; NInt 1]]
           (mkKLVItem "SCAL" (PNum (Arr1 [NInt 1; NInt 2; NInt 4; NInt 8])))
           [NInt 1; NInt 2; NInt 4; NInt 8]);
    [ vm_compute; apply list_elem_of_here
    | vm_compute; reflexivity | reflexivity
    | vm_compute; reflexivity | reflexivity
    | by repeat constructor ].
Defined.

Lemma missized_scale_vector_fails_witness :
  iori_fields
    <$> parse_iori_block euler_of_identity
          [ stmp_record;
            mkKLVItem "SCAL" (PNum (Arr1 [NInt 1; NInt 2; NInt 4]));
            quat_record "IORI" ]
  = Raise ValueError.
Proof.
  apply (missized_scale_vector_fails euler_of_identity
           [ stmp_record;
             mkKLVItem "SCAL" (PNum (Arr1 [NInt 1; NInt 2; NInt 4]));
             quat_record "IORI" ]
           "IORI" _ (quat_record "IORI")
           [identity_quat 32767; identity_quat 32767]
           (mkKLVItem "SCAL" (PNum (Arr1 [NInt 1; NInt 2; NInt 4])))
           [NInt 1; NInt 2; NInt 4]);
    [ apply list_elem_of_here
    | vm_compute; reflexivity | reflexivity
    | vm_compute; reflexivity | reflexivity
    | done | by repeat constructor | simpl; lia | simpl; lia ].
Defined.

Lemma conversion_applied_to_rows_only_witness :
  ("IORI", Ok two_samples_decoded)
  ∈ decoders (fun qx qy qz qw => if (0 <? qw)%float then Some (0, 0, 0)%float else None)
      (block_two_samples "IORI").
Proof.
  apply (conversion_applied_to_rows_only euler_of_identity
           (fun qx qy qz qw => if (0 <? qw)%float then Some (0, 0, 0)%float else None)
           (block_two_samples "IORI") "IORI" (Ok two_samples_decoded));
    [|vm_compute; apply list_elem_of_here].
  intros m qx qy qz qw Hdata Hin.
  vm_compute in Hdata. injection Hdata as <-.
  repeat (apply elem_of_cons in Hin as [[= -> -> -> ->]|Hin]; [reflexivity|]).
  by apply not_elem_of_nil in Hin.
Defined.

Lemma outcome_depends_on_three_records_witness :
  same_records ["IORI"; "SCAL"; "STMP"]
    (block_two_samples "IORI")
    (mkKLVItem "IORI" (PText "replaced") :: block_both_channels)
  /\ ("IORI", Ok two_samples_decoded)
     ∈ decoders euler_of_identity
         (mkKLVItem "IORI" (PText "replaced") :: block_both_channels).
Proof.
  assert (Hsame : same_records ["IORI"; "SCAL"; "STMP"]
                    (block_two_samples "IORI")
                    (mkKLVItem "IORI" (PText "replaced") :: block_both_channels)).
  { intros k Hk.
    repeat (apply elem_of_cons in Hk as [->|Hk]; [vm_compute; reflexivity|]).
    by apply not_elem_of_nil in Hk. }
  split; [exact Hsame|].
  apply (outcome_depends_on_three_records euler_of_identity
           (block_two_samples "IORI")
           (mkKLVItem "IORI" (PText "replaced") :: block_both_channels)
           "IORI" (Ok two_samples_decoded) Hsame).
  vm_compute. apply list_elem_of_here.
Defined.
